(** * Paper-cut optimizer: the layout computation of [src/src/App.jsx]

    The repository is a single React component.  Its only algorithmic part
    is the [rawLayout] memo (lines 32-98): eight strings typed into number
    fields are coerced to non-negative numbers, validated, and turned into
    two candidate layouts (piece as given, piece turned by 90 degrees) with
    a designation of the better one.  Around it are the state of the
    component with the handlers of its buttons (lines 13-29 and 100-169)
    and the effect of [LayoutCanvas] that draws the sketch (lines
    473-590).

    JavaScript numbers are IEEE 754 binary64 values.  They are embedded
    here as [spec_float] at precision 53 and maximal exponent 1024, with
    the round-to-nearest-even operations of the Standard Library's
    [SpecFloat]; every definition below computes. *)

From Stdlib Require Import ZArith QArith Qround String Ascii List Bool Lia.
From Stdlib Require Import SpecFloat.
Import ListNotations.

Local Open Scope Z_scope.

(** ** JavaScript numbers *)

Module JS.

Definition prec : Z := 53.
Definition emax : Z := 1024.

Definition number : Type := spec_float.

Definition nan : number := S754_nan.
Definition infinity : number := S754_infinity false.
Definition zero : number := S754_zero false.

(** An integer as a number (rounded when it needs more than 53 bits). *)
Definition of_Z (z : Z) : number := binary_normalize prec emax z 0 false.

(** [m * 2 ^ e] as a number. *)
Definition of_dyadic (m e : Z) : number := binary_normalize prec emax m e false.

Definition two : number := of_Z 2.

(** [Number.EPSILON], the gap between 1 and the next number: [2 ^ -52]. *)
Definition EPSILON : number := of_dyadic 1 (-52).

Definition add : number -> number -> number := SFadd prec emax.
Definition sub : number -> number -> number := SFsub prec emax.
Definition mul : number -> number -> number := SFmul prec emax.
Definition div : number -> number -> number := SFdiv prec emax.

(** The relational operators.  A comparison with NaN is false. *)
Definition leb (x y : number) : bool := SFleb x y.
Definition ltb (x y : number) : bool := SFltb x y.
Definition eqb (x y : number) : bool := SFeqb x y.
Definition geb (x y : number) : bool :=
  match SFcompare x y with
  | Some (Gt | Eq) => true
  | _ => false
  end.

Definition isNaN (x : number) : bool :=
  match x with
  | S754_nan => true
  | _ => false
  end.

(** [ToBoolean] on a number: NaN and both zeros are falsy. *)
Definition truthy (x : number) : bool :=
  match x with
  | S754_nan | S754_zero _ => false
  | _ => true
  end.

(** [x || y] on numbers: the left operand when it is truthy. *)
Definition or (x y : number) : number := if truthy x then x else y.

(** [Math.max] of two arguments: NaN when either is NaN, and [+0] is
    larger than [-0]. *)
Definition Math_max (x y : number) : number :=
  match x, y with
  | S754_nan, _ | _, S754_nan => S754_nan
  | S754_zero sx, S754_zero sy => S754_zero (sx && sy)
  | _, _ => if ltb x y then y else x
  end.

(** [Math.floor]: the largest integral number not above the argument.
    A number with a non-negative exponent is integral already. *)
Definition Math_floor (x : number) : number :=
  match x with
  | S754_finite s m e =>
      if 0 <=? e then x
      else binary_normalize prec emax
             (Z.shiftr (cond_Zopp s (Zpos m)) (- e)) 0 s
  | _ => x
  end.

(** *** [parseFloat]

    A string is a sequence of code units; [ascii] covers the code units
    below 256.  [parseFloat] skips leading white space, reads the longest
    prefix that is a [StrDecimalLiteral] and rounds its value to the
    nearest number, ties to even. *)

Definition is_white_space (c : ascii) : bool :=
  existsb (N.eqb (N_of_ascii c)) [9; 10; 11; 12; 13; 32; 160]%N.

Fixpoint trim_start (s : string) : string :=
  match s with
  | String c r => if is_white_space c then trim_start r else s
  | EmptyString => s
  end.

Definition digit_of (c : ascii) : option Z :=
  let n := Z.of_N (N_of_ascii c) in
  if (48 <=? n) && (n <=? 57) then Some (n - 48) else None.

(** Reads decimal digits, continuing the value [acc] of the [cnt] digits
    read before; returns the value, the digit count and the rest. *)
Fixpoint take_digits (s : string) (acc cnt : Z) : Z * Z * string :=
  match s with
  | String c r =>
      match digit_of c with
      | Some d => take_digits r (10 * acc + d) (cnt + 1)
      | None => (acc, cnt, s)
      end
  | EmptyString => (acc, cnt, s)
  end.

(** The value of an [ExponentPart] at the head of [s], or 0 when there is
    none (an [e] that no digit follows is not part of the literal). *)
Definition exponent_part (s : string) : Z :=
  match s with
  | String c r =>
      if (Ascii.eqb c "e" || Ascii.eqb c "E")%bool then
        match r with
        | String "-" r' =>
            let '(v, n, _) := take_digits r' 0 0 in if 0 <? n then - v else 0
        | String "+" r' =>
            let '(v, n, _) := take_digits r' 0 0 in if 0 <? n then v else 0
        | _ => let '(v, _, _) := take_digits r 0 0 in v
        end
      else 0
  | EmptyString => 0
  end.

(** [m * 10 ^ e], signed, rounded once. *)
Definition of_decimal (neg : bool) (m e : Z) : number :=
  match m with
  | Zpos p =>
      if 0 <=? e then
        binary_normalize prec emax (cond_Zopp neg (m * 10 ^ e)) 0 false
      else
        SFdiv prec emax (S754_finite neg p 0)
                        (S754_finite false (Z.to_pos (10 ^ (- e))) 0)
  | _ => S754_zero neg
  end.

Definition unsigned_literal (neg : bool) (s : string) : number :=
  if String.prefix "Infinity" s then S754_infinity neg else
  let '(ip, ni, r1) := take_digits s 0 0 in
  match r1 with
  | String "." r2 =>
      let '(m, n, r3) := take_digits r2 ip ni in
      if 0 <? n then of_decimal neg m (exponent_part r3 - (n - ni))
      else S754_nan
  | _ => if 0 <? ni then of_decimal neg ip (exponent_part r1) else S754_nan
  end.

Definition parseFloat (s : string) : number :=
  match trim_start s with
  | String "-" r => unsigned_literal true r
  | String "+" r => unsigned_literal false r
  | r => unsigned_literal false r
  end.

(** The rational value of a finite number (0 for the others). *)
Definition to_Q (x : number) : Q :=
  match x with
  | S754_finite s m e =>
      if 0 <=? e then inject_Z (cond_Zopp s (Zpos m) * 2 ^ e)
      else Qmake (cond_Zopp s (Zpos m)) (Z.to_pos (2 ^ (- e)))
  | _ => 0%Q
  end.

End JS.

Declare Scope js_scope.
Delimit Scope js_scope with js.
Bind Scope js_scope with JS.number.
Infix "+" := JS.add : js_scope.
Infix "-" := JS.sub : js_scope.
Infix "*" := JS.mul : js_scope.
Infix "/" := JS.div : js_scope.
Infix "<=?" := JS.leb : js_scope.
Infix ">=?" := JS.geb : js_scope.
Infix "<?" := JS.ltb : js_scope.
Infix "==?" := JS.eqb (at level 70) : js_scope.
Infix "|||" := JS.or (at level 50, left associativity) : js_scope.
Notation "0" := JS.zero : js_scope.
Notation "2" := JS.two : js_scope.

(** ** The result object *)

(** One candidate: [layoutA] or [layoutB] of the returned object. *)
Record Layout : Type := mkLayout {
  total : JS.number;
  fitW : JS.number;
  fitH : JS.number;
  rotated : bool;
  cutW : JS.number;
  cutH : JS.number
}.

(** The keys ['A'] and ['B']. *)
Inductive Key : Type := A | B.

(** The object [rawLayout] returns.  A property the object lacks, or one
    that holds [null], is [None]. *)
Record Result : Type := mkResult {
  layoutA : option Layout;
  layoutB : option Layout;
  optimalKey : option Key;
  sheetW : JS.number;
  sheetH : JS.number;
  grip : JS.number;
  lateralMargin : JS.number;
  gutter : JS.number;
  tail : JS.number;
  error : option string
}.

(** The two messages; code unit 225 is a-acute. *)
Definition DIMENSIONS_ERROR : string :=
  "Las dimensiones deben ser positivas.".
Definition MARGINS_ERROR : string :=
  "Los m" ++ String "225" "rgenes o pinza/cola son demasiado grandes para el pliego.".

(** ** The computation *)

Local Open Scope js_scope.

(** Lines 64-68. *)
Definition calculateFit (usableLength pieceLength gutterLength : JS.number)
  : JS.number :=
  if pieceLength + gutterLength <=? 0 then 0
  else JS.Math_floor
         ((usableLength + gutterLength) / (pieceLength + gutterLength)
          + JS.EPSILON).

(** Lines 60 and 61: the usable width and height of the sheet. *)
Definition effectiveW (SW LM : JS.number) : JS.number := SW - 2 * LM.
Definition effectiveH (SH G_calc T_calc : JS.number) : JS.number :=
  SH - G_calc - T_calc.

(** Lines 32-98, the function given to [useMemo]; the arguments are the
    eight state strings. *)
Definition rawLayout
  (cutWidth cutHeight sheetWidth sheetHeight lateralMargin gutter tail grip
     : string) : Result :=
  let CW := JS.Math_max 0 (JS.parseFloat cutWidth ||| 0) in
  let CH := JS.Math_max 0 (JS.parseFloat cutHeight ||| 0) in
  let SW := JS.Math_max 0 (JS.parseFloat sheetWidth ||| 0) in
  let SH := JS.Math_max 0 (JS.parseFloat sheetHeight ||| 0) in
  let LM := JS.Math_max 0 (JS.parseFloat lateralMargin ||| 0) in
  let T_calc := JS.Math_max 0 (JS.parseFloat grip ||| 0) in
  let G_calc := JS.Math_max 0 (JS.parseFloat tail ||| 0) in
  let GT := JS.Math_max 0 (JS.parseFloat gutter ||| 0) in
  if (CW <=? 0) || (CH <=? 0) || (SW <=? 0) || (SH <=? 0) then
    {| layoutA := None; layoutB := None; optimalKey := None;
       error := Some DIMENSIONS_ERROR;
       sheetW := SW; sheetH := SH; grip := T_calc; lateralMargin := LM;
       gutter := GT; tail := G_calc |}
  else if (G_calc + T_calc >=? SH) || (2 * LM >=? SW) then
    {| layoutA := None; layoutB := None; optimalKey := None;
       error := Some MARGINS_ERROR;
       sheetW := SW; sheetH := SH; grip := T_calc; lateralMargin := LM;
       gutter := GT; tail := G_calc |}
  else
    let effectiveW := effectiveW SW LM in
    let effectiveH := effectiveH SH G_calc T_calc in
    let fitW1 := calculateFit effectiveW CW GT in
    let fitH1 := calculateFit effectiveH CH GT in
    let total1 := fitW1 * fitH1 in
    let fitW2 := calculateFit effectiveW CH GT in
    let fitH2 := calculateFit effectiveH CW GT in
    let total2 := fitW2 * fitH2 in
    let optimalKey := if total1 >=? total2 then A else B in
    {| layoutA := Some {| total := total1; fitW := fitW1; fitH := fitH1;
                          rotated := false; cutW := CW; cutH := CH |};
       layoutB := Some {| total := total2; fitW := fitW2; fitH := fitH2;
                          rotated := true; cutW := CH; cutH := CW |};
       optimalKey := Some optimalKey;
       sheetW := SW; sheetH := SH;
       grip := JS.Math_max 0 (JS.parseFloat grip ||| 0);
       lateralMargin := LM;
       gutter := GT;
       tail := JS.Math_max 0 (JS.parseFloat tail ||| 0);
       error := None |}.


(** The coercion every input goes through (lines 34-48, 91 and 94). *)
Definition coerce (s : string) : JS.number :=
  JS.Math_max 0 (JS.parseFloat s ||| 0).

(** What the specification says of it: [max(0, parsedValue)], with a
    value that is not a number taken as 0. *)
Definition clamp (parsedValue : JS.number) : JS.number :=
  if JS.isNaN parsedValue then 0 else JS.Math_max 0 parsedValue.

(** A request is valid when [rawLayout] reports no error for it. *)
Definition valid (r : Result) : Prop := error r = None.

(** ** The properties claimed of a result *)

(** The columns, rows and total of a candidate. *)
Definition counts (l : Layout) : JS.number * JS.number * JS.number :=
  (fitW l, fitH l, total l).

(** What C3 says of a result: both candidates are there, the first as
    given and the second turned, and the key is ['A'] exactly when the
    first total is [>=] the second. *)
Definition selects_optimal (r : Result) : Prop :=
  exists la lb,
    layoutA r = Some la /\ layoutB r = Some lb
    /\ rotated la = false /\ rotated lb = true
    /\ (optimalKey r = Some A <-> (total la >=? total lb) = true)
    /\ (optimalKey r = Some B <-> (total la >=? total lb) = false)
    /\ ((total la ==? total lb) = true -> optimalKey r = Some A).

(** What C5 says of a result. *)
Definition totals_consistent (r : Result) : Prop :=
  exists la lb,
    layoutA r = Some la /\ layoutB r = Some lb
    /\ total la = fitW la * fitH la
    /\ total lb = fitW lb * fitH lb.

(** What C8 says of a request and its result: the numbers the result
    echoes, and the piece dimensions of its candidates, are the coerced
    inputs. *)
Definition uses_coerced_inputs
  (cw ch sw sh lm gt tl gr : string) (r : Result) : Prop :=
  sheetW r = coerce sw /\ sheetH r = coerce sh
  /\ lateralMargin r = coerce lm /\ gutter r = coerce gt
  /\ tail r = coerce tl /\ grip r = coerce gr
  /\ (forall la, layoutA r = Some la ->
        cutW la = coerce cw /\ cutH la = coerce ch)
  /\ (forall lb, layoutB r = Some lb ->
        cutW lb = coerce ch /\ cutH lb = coerce cw).

(** What C9 says of a request [r] and of the request [r'] with the two
    clearances exchanged. *)
Definition swap_invariant (r r' : Result) : Prop :=
  error r = error r'
  /\ option_map counts (layoutA r) = option_map counts (layoutA r')
  /\ option_map counts (layoutB r) = option_map counts (layoutB r')
  /\ optimalKey r = optimalKey r'.

(** What C10 says of a request [r] and of the request [r'] with the
    piece's width and height exchanged. *)
Definition candidates_exchanged (r r' : Result) : Prop :=
  exists la lb la' lb',
    layoutA r = Some la /\ layoutB r = Some lb
    /\ layoutA r' = Some la' /\ layoutB r' = Some lb'
    /\ (fitW lb = fitW la' /\ fitH lb = fitH la' /\ total lb = total la')
    /\ (fitW la = fitW lb' /\ fitH la = fitH lb' /\ total la = total lb').

(** ** The component's state and handlers

    Lines 13-29 and 100-169: the eight input strings, the result on
    display, the dirty flag and the key of what is displayed, with the
    handlers of the three buttons. *)

(** The object held in [displayLayout], written by three object
    literals: the spread of a candidate (or of [undefined]) followed by
    the sheet values and the error of [rawLayout] (lines 119-124, 141-146,
    157-162), and in the error case the spread of [rawLayout] itself with
    [total], [fitW] and [fitH] set to 0 (line 110).  A property the object
    lacks is [None]; [optimalKey] is [Some None] when it holds [null]. *)
Module DL.

Record t : Type := mk {
  total : option JS.number;
  fitW : option JS.number;
  fitH : option JS.number;
  rotated : option bool;
  cutW : option JS.number;
  cutH : option JS.number;
  layoutA : option Layout;
  layoutB : option Layout;
  optimalKey : option (option Key);
  sheetW : JS.number;
  sheetH : JS.number;
  grip : JS.number;
  lateralMargin : JS.number;
  gutter : JS.number;
  tail : JS.number;
  error : option string
}.

End DL.

(** [{ ...layout, sheetW: rawLayout.sheetW, ..., error: rawLayout.error }];
    spreading [undefined] adds nothing. *)
Definition spread_layout (layout : option Layout) (rl : Result) : DL.t :=
  {| DL.total := option_map total layout;
     DL.fitW := option_map fitW layout;
     DL.fitH := option_map fitH layout;
     DL.rotated := option_map rotated layout;
     DL.cutW := option_map cutW layout;
     DL.cutH := option_map cutH layout;
     DL.layoutA := None; DL.layoutB := None; DL.optimalKey := None;
     DL.sheetW := sheetW rl; DL.sheetH := sheetH rl;
     DL.grip := grip rl; DL.lateralMargin := lateralMargin rl;
     DL.gutter := gutter rl; DL.tail := tail rl;
     DL.error := error rl |}.

(** [{ ...rawLayout, total: 0, fitW: 0, fitH: 0 }]. *)
Definition spread_error (rl : Result) : DL.t :=
  {| DL.total := Some 0; DL.fitW := Some 0; DL.fitH := Some 0;
     DL.rotated := None; DL.cutW := None; DL.cutH := None;
     DL.layoutA := layoutA rl; DL.layoutB := layoutB rl;
     DL.optimalKey := Some (optimalKey rl);
     DL.sheetW := sheetW rl; DL.sheetH := sheetH rl;
     DL.grip := grip rl; DL.lateralMargin := lateralMargin rl;
     DL.gutter := gutter rl; DL.tail := tail rl;
     DL.error := error rl |}.

(** [ToBoolean] of an error property: [null] and the empty string are
    falsy. *)
Definition truthy_error (e : option string) : bool :=
  match e with
  | Some (String _ _) => true
  | _ => false
  end.

(** [rawLayout.optimalKey === 'A']. *)
Definition is_A (k : option Key) : bool :=
  match k with
  | Some A => true
  | _ => false
  end.

(** [rawLayout[`layout${key}`]]; no property is named [layoutnull]. *)
Definition layout_at (rl : Result) (key : option Key) : option Layout :=
  match key with
  | Some A => layoutA rl
  | Some B => layoutB rl
  | None => None
  end.

(** [layout.total > 0], false when the property is missing. *)
Definition total_positive (d : DL.t) : bool :=
  match DL.total d with
  | Some t => 0 <? t
  | None => false
  end.

Module App.

(** The values of [currentLayoutKey]. *)
Inductive LayoutKey : Type := optimal | inverted.

Definition is_optimal (k : LayoutKey) : bool :=
  match k with
  | optimal => true
  | inverted => false
  end.

(** The eight input states. *)
Record Inputs : Type := mkInputs {
  cutWidth : string;
  cutHeight : string;
  sheetWidth : string;
  sheetHeight : string;
  lateralMargin : string;
  gutter : string;
  tail : string;
  grip : string
}.

Record State : Type := mkState {
  inputs : Inputs;
  displayLayout : option DL.t;
  isDirty : bool;
  currentLayoutKey : LayoutKey
}.

(** Lines 13-29. *)
Definition initial : State :=
  {| inputs := {| cutWidth := "8.5"; cutHeight := "11.0";
                  sheetWidth := "17.0"; sheetHeight := "22.0";
                  lateralMargin := "0.375"; gutter := "0.125";
                  tail := "0.375"; grip := "0.5" |};
     displayLayout := None;
     isDirty := true;
     currentLayoutKey := optimal |}.

(** The memo of lines 32-98 for the inputs of the current render. *)
Definition rawLayoutOf (i : Inputs) : Result :=
  rawLayout (cutWidth i) (cutHeight i) (sheetWidth i) (sheetHeight i)
            (lateralMargin i) (gutter i) (tail i) (grip i).

(** The eight fields of the form. *)
Inductive Field : Type :=
  | CutWidth | CutHeight | SheetWidth | SheetHeight
  | LateralMargin | Gutter | Tail | Grip.

Definition get (f : Field) (i : Inputs) : string :=
  match f with
  | CutWidth => cutWidth i
  | CutHeight => cutHeight i
  | SheetWidth => sheetWidth i
  | SheetHeight => sheetHeight i
  | LateralMargin => lateralMargin i
  | Gutter => gutter i
  | Tail => tail i
  | Grip => grip i
  end.

Definition set (f : Field) (v : string) (i : Inputs) : Inputs :=
  match f with
  | CutWidth =>
      mkInputs v (cutHeight i) (sheetWidth i) (sheetHeight i)
               (lateralMargin i) (gutter i) (tail i) (grip i)
  | CutHeight =>
      mkInputs (cutWidth i) v (sheetWidth i) (sheetHeight i)
               (lateralMargin i) (gutter i) (tail i) (grip i)
  | SheetWidth =>
      mkInputs (cutWidth i) (cutHeight i) v (sheetHeight i)
               (lateralMargin i) (gutter i) (tail i) (grip i)
  | SheetHeight =>
      mkInputs (cutWidth i) (cutHeight i) (sheetWidth i) v
               (lateralMargin i) (gutter i) (tail i) (grip i)
  | LateralMargin =>
      mkInputs (cutWidth i) (cutHeight i) (sheetWidth i) (sheetHeight i)
               v (gutter i) (tail i) (grip i)
  | Gutter =>
      mkInputs (cutWidth i) (cutHeight i) (sheetWidth i) (sheetHeight i)
               (lateralMargin i) v (tail i) (grip i)
  | Tail =>
      mkInputs (cutWidth i) (cutHeight i) (sheetWidth i) (sheetHeight i)
               (lateralMargin i) (gutter i) v (grip i)
  | Grip =>
      mkInputs (cutWidth i) (cutHeight i) (sheetWidth i) (sheetHeight i)
               (lateralMargin i) (gutter i) (tail i) v
  end.

(** An [onChange] of a field (lines 236-296) and the effect of lines
    101-103 that follows it.  Setting a state to the value it holds
    changes nothing; a new value is stored, and the effect, whose
    dependencies are the eight inputs, sets the dirty flag. *)
Definition onChange (f : Field) (v : string) (s : State) : State :=
  if String.eqb (get f (inputs s)) v then s
  else {| inputs := set f v (inputs s);
          displayLayout := displayLayout s;
          isDirty := true;
          currentLayoutKey := currentLayoutKey s |}.

(** Lines 107-127. *)
Definition handleCalculate (s : State) : State :=
  let rawLayout := rawLayoutOf (inputs s) in
  if truthy_error (error rawLayout) then
    {| inputs := inputs s;
       displayLayout := Some (spread_error rawLayout);
       currentLayoutKey := optimal;
       isDirty := false |}
  else
    let optimalLayout :=
      if is_A (optimalKey rawLayout) then layoutA rawLayout
      else layoutB rawLayout in
    {| inputs := inputs s;
       displayLayout := Some (spread_layout optimalLayout rawLayout);
       currentLayoutKey := optimal;
       isDirty := false |}.

(** Lines 129-148. *)
Definition handleInvert (s : State) : State :=
  let rawLayout := rawLayoutOf (inputs s) in
  match displayLayout s with
  | None => s
  | Some _ =>
      let currentIsOptimal := is_optimal (currentLayoutKey s) in
      let keyToDisplay :=
        if currentIsOptimal
        then (if is_A (optimalKey rawLayout) then Some B else Some A)
        else optimalKey rawLayout in
      let invertedLayout := layout_at rawLayout keyToDisplay in
      {| inputs := inputs s;
         displayLayout := Some (spread_layout invertedLayout rawLayout);
         currentLayoutKey := if currentIsOptimal then inverted else optimal;
         isDirty := isDirty s |}
  end.

(** Lines 150-164. *)
Definition handleRevert (s : State) : State :=
  let rawLayout := rawLayoutOf (inputs s) in
  match displayLayout s with
  | None => s
  | Some _ =>
      if is_optimal (currentLayoutKey s) then s
      else
        let optimalLayout :=
          if is_A (optimalKey rawLayout) then layoutA rawLayout
          else layoutB rawLayout in
        {| inputs := inputs s;
           displayLayout := Some (spread_layout optimalLayout rawLayout);
           currentLayoutKey := optimal;
           isDirty := isDirty s |}
  end.

(** [layout && layout.total > 0] (lines 388 and 397): the sketch and the
    two orientation buttons are rendered. *)
Definition showsSketch (s : State) : bool :=
  match displayLayout s with
  | Some layout => total_positive layout
  | None => false
  end.

(** [layout.error] (line 364): the error box is rendered. *)
Definition showsError (s : State) : bool :=
  match displayLayout s with
  | Some layout => truthy_error (DL.error layout)
  | None => false
  end.

(** What the user can do: edit a field, or press one of the four
    buttons. *)
Inductive Event : Type :=
  | Change (f : Field) (v : string)
  | Calculate
  | Invert
  | Revert
  | Print.

(** A button can be pressed when it is rendered and not disabled:
    Calculate has [disabled={!isDirty}] (line 309); Invert and Revert are
    rendered with the sketch (line 397), Revert with
    [disabled={currentLayoutKey === 'optimal'}] (line 409). *)
Definition enabled (e : Event) (s : State) : bool :=
  match e with
  | Change _ _ => true
  | Calculate => isDirty s
  | Invert => showsSketch s
  | Revert => showsSketch s && negb (is_optimal (currentLayoutKey s))
  | Print => true
  end.

(** [handlePrint] (lines 166-169) opens the print dialog and changes no
    state. *)
Definition handle (e : Event) (s : State) : State :=
  match e with
  | Change f v => onChange f v s
  | Calculate => handleCalculate s
  | Invert => handleInvert s
  | Revert => handleRevert s
  | Print => s
  end.

(** The states the user can bring the component into. *)
Inductive reachable : State -> Prop :=
  | reachable_initial : reachable initial
  | reachable_handle (s : State) (e : Event) :
      reachable s -> enabled e s = true -> reachable (handle e s).

(** The display agrees with the inputs: it is what Calculate gives for
    them, followed by Invert when the key says [inverted]. *)
Definition in_sync (s : State) : Prop :=
  displayLayout s
  = displayLayout
      (match currentLayoutKey s with
       | optimal => handleCalculate s
       | inverted => handleInvert (handleCalculate s)
       end).

End App.

(** ** The sketch

    Lines 473-590, the effect of [LayoutCanvas]: what it does to the
    canvas, as the list of the operations it performs. *)

Module Canvas.

(** Line 4. *)
Definition MAX_CANVAS_WIDTH : JS.number := JS.of_Z 500.

(** A text given to [fillText]: a literal, or the label of line 578,
    [`Pliego: ${SW}" x ${SH}"`], kept as its two numbers. *)
Inductive Text : Type :=
  | Literal (s : string)
  | SheetLabel (SW SH : JS.number).

(** What reaches the canvas: the two size assignments and the calls of
    the context, each with the styles in force when it is made. *)
Inductive Op : Type :=
  | SetWidth (w : JS.number)
  | SetHeight (h : JS.number)
  | ClearRect (x y w h : JS.number)
  | StrokeRect (strokeStyle : string) (lineWidth : JS.number)
               (x y w h : JS.number)
  | FillRect (fillStyle : string) (x y w h : JS.number)
  | FillText (fillStyle font textAlign : string) (text : Text)
             (x y : JS.number).

(** The drawing state of the 2D context, and what was drawn so far. *)
Record Context : Type := mkContext {
  fillStyle : string;
  strokeStyle : string;
  lineWidth : JS.number;
  font : string;
  textAlign : string;
  drawn : list Op
}.

(** Assigning the canvas size resets the context to its defaults. *)
Definition reset (ops : list Op) : Context :=
  {| fillStyle := "#000000"; strokeStyle := "#000000";
     lineWidth := JS.of_Z 1; font := "10px sans-serif";
     textAlign := "start"; drawn := ops |}.

Definition emit (op : Op) (c : Context) : Context :=
  {| fillStyle := fillStyle c; strokeStyle := strokeStyle c;
     lineWidth := lineWidth c; font := font c; textAlign := textAlign c;
     drawn := drawn c ++ [op] |}.

Definition set_fillStyle (v : string) (c : Context) : Context :=
  {| fillStyle := v; strokeStyle := strokeStyle c;
     lineWidth := lineWidth c; font := font c; textAlign := textAlign c;
     drawn := drawn c |}.

Definition set_strokeStyle (v : string) (c : Context) : Context :=
  {| fillStyle := fillStyle c; strokeStyle := v;
     lineWidth := lineWidth c; font := font c; textAlign := textAlign c;
     drawn := drawn c |}.

Definition set_lineWidth (v : JS.number) (c : Context) : Context :=
  {| fillStyle := fillStyle c; strokeStyle := strokeStyle c;
     lineWidth := v; font := font c; textAlign := textAlign c;
     drawn := drawn c |}.

Definition set_font (v : string) (c : Context) : Context :=
  {| fillStyle := fillStyle c; strokeStyle := strokeStyle c;
     lineWidth := lineWidth c; font := v; textAlign := textAlign c;
     drawn := drawn c |}.

Definition set_textAlign (v : string) (c : Context) : Context :=
  {| fillStyle := fillStyle c; strokeStyle := strokeStyle c;
     lineWidth := lineWidth c; font := font c; textAlign := v;
     drawn := drawn c |}.

Definition clearRect (x y w h : JS.number) (c : Context) : Context :=
  emit (ClearRect x y w h) c.

Definition strokeRect (x y w h : JS.number) (c : Context) : Context :=
  emit (StrokeRect (strokeStyle c) (lineWidth c) x y w h) c.

Definition fillRect (x y w h : JS.number) (c : Context) : Context :=
  emit (FillRect (fillStyle c) x y w h) c.

Definition fillText (t : Text) (x y : JS.number) (c : Context) : Context :=
  emit (FillText (fillStyle c) (font c) (textAlign c) t x y) c.

(** A property read as a number: [undefined] gives NaN. *)
Definition num (o : option JS.number) : JS.number :=
  match o with
  | Some x => x
  | None => JS.nan
  end.

(** [layout.total === 0]. *)
Definition is_zero (o : option JS.number) : bool :=
  match o with
  | Some x => x ==? 0
  | None => false
  end.

(** The colours of the pieces and of the gutters. *)
Definition PIECE_STROKE : string := "#34d399".
Definition PIECE_FILL : string := "rgba(52, 211, 153, 0.4)".
Definition GUTTER_FILL : string := "rgba(107, 114, 128, 0.3)".

Section Loops.

(** The constants of lines 536-547 and the two bounds. *)
Variables startX startY cutDrawW cutDrawH gutterDraw fitW fitH : JS.number.

(** Lines 551-569, the body of the inner loop. *)
Definition body (i j : JS.number) (ctx : Context) : Context :=
  let x := startX + i * cutDrawW + i * gutterDraw in
  let y := startY + j * cutDrawH + j * gutterDraw in
  let ctx := fillRect x y cutDrawW cutDrawH ctx in
  let ctx := strokeRect x y cutDrawW cutDrawH ctx in
  let ctx :=
    if j <? fitH - JS.of_Z 1 then
      fillRect x (y + cutDrawH) cutDrawW gutterDraw
               (set_fillStyle GUTTER_FILL ctx)
    else ctx in
  if i <? fitW - JS.of_Z 1 then
    let ctx := set_fillStyle GUTTER_FILL ctx in
    let nextGutterV := if j <? fitH - JS.of_Z 1 then gutterDraw else 0 in
    fillRect (x + cutDrawW) y gutterDraw (cutDrawH + nextGutterV) ctx
  else ctx.

(** Line 550: [for (let j = 0; j < layout.fitH; j++)], from [j] on; [None]
    when more than [fuel] passes are needed. *)
Fixpoint for_j (fuel : nat) (i j : JS.number) (ctx : Context)
  : option Context :=
  if j <? fitH then
    match fuel with
    | O => None
    | S fuel' => for_j fuel' i (j + JS.of_Z 1) (body i j ctx)
    end
  else Some ctx.

(** Line 549: [for (let i = 0; i < layout.fitW; i++)], from [i] on. *)
Fixpoint for_i (budget fuel : nat) (i : JS.number) (ctx : Context)
  : option Context :=
  if i <? fitW then
    match fuel with
    | O => None
    | S fuel' =>
        match for_j budget i 0 ctx with
        | Some ctx' => for_i budget fuel' (i + JS.of_Z 1) ctx'
        | None => None
        end
    end
  else Some ctx.

End Loops.

(** Lines 482-547: the scale, the canvas size, the frame of the sheet,
    the tail and grip bands, the two margins, and the styles of the
    pieces; the canvas is mounted. *)
Definition prologue (layout : DL.t) : Context :=
  let SW := DL.sheetW layout in
  let SH := DL.sheetH layout in
  let LM := DL.lateralMargin layout in
  let GRIP := DL.grip layout in
  let TAIL := DL.tail layout in
  let scaleFactor := MAX_CANVAS_WIDTH / SW in
  let drawW := SW * scaleFactor in
  let drawH := SH * scaleFactor in
  let ctx := reset [SetWidth drawW; SetHeight drawH] in
  let ctx := clearRect 0 0 drawW drawH ctx in
  let ctx := set_strokeStyle "#374151" ctx in
  let ctx := set_lineWidth (JS.of_Z 2) ctx in
  let ctx := strokeRect 0 0 drawW drawH ctx in
  let tailH := TAIL * scaleFactor in
  let ctx := set_fillStyle "rgba(107, 114, 128, 0.2)" ctx in
  let ctx := fillRect 0 0 drawW tailH ctx in
  let ctx := set_fillStyle "#374151" ctx in
  let ctx := set_font "10px Arial" ctx in
  let ctx := set_textAlign "left" ctx in
  let ctx := fillText (Literal "Cola (T)") (JS.of_Z 5) (JS.of_Z 15) ctx in
  let gripH := GRIP * scaleFactor in
  let ctx := set_fillStyle "rgba(239, 68, 68, 0.2)" ctx in
  let ctx := fillRect 0 (drawH - gripH) drawW gripH ctx in
  let ctx := set_strokeStyle "#ef4444" ctx in
  let ctx := set_lineWidth (JS.of_Z 1) ctx in
  let ctx := strokeRect 0 (drawH - gripH) drawW gripH ctx in
  let ctx := set_fillStyle "#ef4444" ctx in
  let ctx := fillText (Literal "Pinza (G)") (JS.of_Z 5)
                      (drawH - JS.of_Z 5) ctx in
  let lateralMarginW := LM * scaleFactor in
  let printableAreaH := drawH - tailH - gripH in
  let ctx := set_fillStyle "rgba(107, 114, 128, 0.1)" ctx in
  let ctx := fillRect 0 tailH lateralMarginW printableAreaH ctx in
  let ctx := fillRect (drawW - lateralMarginW) tailH lateralMarginW
                      printableAreaH ctx in
  let ctx := set_strokeStyle PIECE_STROKE ctx in
  let ctx := set_fillStyle PIECE_FILL ctx in
  set_lineWidth (JS.of_Z 1) ctx.

(** Lines 574-579: the label of the sheet. *)
Definition epilogue (layout : DL.t) (ctx : Context) : Context :=
  let SW := DL.sheetW layout in
  let SH := DL.sheetH layout in
  let scaleFactor := MAX_CANVAS_WIDTH / SW in
  let drawW := SW * scaleFactor in
  let drawH := SH * scaleFactor in
  let gripH := DL.grip layout * scaleFactor in
  let ctx := set_fillStyle "#374151" ctx in
  let ctx := set_font "12px Arial" ctx in
  let ctx := set_textAlign "center" ctx in
  fillText (SheetLabel SW SH) (drawW / 2) (drawH - JS.of_Z 5 - gripH) ctx.

(** Lines 476-583, the effect: the operations performed on the canvas,
    none after the early return of line 478; [None] when a loop needs
    more than [fuel] passes. *)
Definition effect (fuel : nat) (layout : DL.t) : option (list Op) :=
  if is_zero (DL.total layout) || truthy_error (DL.error layout) then Some []
  else
    let scaleFactor := MAX_CANVAS_WIDTH / DL.sheetW layout in
    let cutDrawW := num (DL.cutW layout) * scaleFactor in
    let cutDrawH := num (DL.cutH layout) * scaleFactor in
    let gutterDraw := DL.gutter layout * scaleFactor in
    let startX := DL.lateralMargin layout * scaleFactor in
    let startY := DL.tail layout * scaleFactor in
    match for_i startX startY cutDrawW cutDrawH gutterDraw
                (num (DL.fitW layout)) (num (DL.fitH layout))
                fuel fuel 0 (prologue layout) with
    | Some ctx => Some (drawn (epilogue layout ctx))
    | None => None
    end.

End Canvas.

(** The integers from [a], [k] of them. *)
Definition interval (a : Z) (k : nat) : list Z :=
  map (fun t => (a + Z.of_nat t)%Z) (seq 0 k).

Section Grid.

Variables startX startY cutDrawW cutDrawH gutterDraw : JS.number.
Variables n m : Z.

(** Where the piece of column [i] and row [j] is drawn. *)
Definition X (i : Z) : JS.number :=
  startX + JS.of_Z i * cutDrawW + JS.of_Z i * gutterDraw.
Definition Y (j : Z) : JS.number :=
  startY + JS.of_Z j * cutDrawH + JS.of_Z j * gutterDraw.

(** What is drawn for the piece of column [i] and row [j]: the piece,
    filled with [fill] and outlined, the gutter below it unless it is the
    last of its column, and the gutter to its right unless it is in the
    last column. *)
Definition cell (fill : string) (i j : Z) : list Canvas.Op :=
  [Canvas.FillRect fill (X i) (Y j) cutDrawW cutDrawH;
   Canvas.StrokeRect Canvas.PIECE_STROKE (JS.of_Z 1)
                     (X i) (Y j) cutDrawW cutDrawH]
  ++ (if (j <? m - 1)%Z
      then [Canvas.FillRect Canvas.GUTTER_FILL
                            (X i) (Y j + cutDrawH) cutDrawW gutterDraw]
      else [])
  ++ (if (i <? n - 1)%Z
      then [Canvas.FillRect Canvas.GUTTER_FILL
                            (X i + cutDrawW) (Y j) gutterDraw
                            (cutDrawH
                             + (if (j <? m - 1)%Z then gutterDraw else 0))]
      else []).

(** The fill in force when a piece is drawn: the one of the pieces for
    the first piece only. *)
Definition fill_of (i j : Z) : string :=
  if ((i =? 0) && (j =? 0))%Z then Canvas.PIECE_FILL else Canvas.GUTTER_FILL.

Definition column (i : Z) (rows : list Z) : list Canvas.Op :=
  flat_map (fun j => cell (fill_of i j) i j) rows.

Definition grid : list Canvas.Op :=
  flat_map (fun i => column i (interval 0 (Z.to_nat m)))
           (interval 0 (Z.to_nat n)).

End Grid.

(** The constants of the loops for a display (lines 495 and 531-547). *)
Definition scaleFactor (layout : DL.t) : JS.number :=
  Canvas.MAX_CANVAS_WIDTH / DL.sheetW layout.

(** The grid of [n] by [m] pieces for a display. *)
Definition sketch_grid (layout : DL.t) (n m : Z) : list Canvas.Op :=
  grid (DL.lateralMargin layout * scaleFactor layout)
       (DL.tail layout * scaleFactor layout)
       (Canvas.num (DL.cutW layout) * scaleFactor layout)
       (Canvas.num (DL.cutH layout) * scaleFactor layout)
       (DL.gutter layout * scaleFactor layout) n m.

(** The outlines of the [n] by [m] pieces, column by column. *)
Definition sketch_outlines (layout : DL.t) (n m : Z) : list Canvas.Op :=
  flat_map
    (fun i =>
       map (fun j =>
              Canvas.StrokeRect Canvas.PIECE_STROKE (JS.of_Z 1)
                (X (DL.lateralMargin layout * scaleFactor layout)
                   (Canvas.num (DL.cutW layout) * scaleFactor layout)
                   (DL.gutter layout * scaleFactor layout) i)
                (Y (DL.tail layout * scaleFactor layout)
                   (Canvas.num (DL.cutH layout) * scaleFactor layout)
                   (DL.gutter layout * scaleFactor layout) j)
                (Canvas.num (DL.cutW layout) * scaleFactor layout)
                (Canvas.num (DL.cutH layout) * scaleFactor layout))
           (interval 0 (Z.to_nat m)))
    (interval 0 (Z.to_nat n)).

Definition is_outline (op : Canvas.Op) : bool :=
  match op with
  | Canvas.StrokeRect s _ _ _ _ _ => String.eqb s Canvas.PIECE_STROKE
  | _ => false
  end.

Definition is_piece_fill (op : Canvas.Op) : bool :=
  match op with
  | Canvas.FillRect s _ _ _ _ => String.eqb s Canvas.PIECE_FILL
  | _ => false
  end.

(** A display the sketch is drawn for, with whole fit counts. *)
Definition drawable (layout : DL.t) (n m : Z) : Prop :=
  (0 <= n < 2 ^ 53)%Z /\ (0 <= m < 2 ^ 53)%Z
  /\ DL.fitW layout = Some (JS.of_Z n)
  /\ DL.fitH layout = Some (JS.of_Z m)
  /\ Canvas.is_zero (DL.total layout) = false
  /\ truthy_error (DL.error layout) = false.

(** ** The properties shown of the handlers and of the sketch *)

(** The two shapes of what [rawLayout] returns: an error with no
    candidate and no key, or no error, both candidates (the second the
    first one turned) and the key of the larger total. *)
Definition shaped (rl : Result) : Prop :=
  (truthy_error (error rl) = true
   /\ layoutA rl = None /\ layoutB rl = None /\ optimalKey rl = None)
  \/ (error rl = None
      /\ exists la lb,
           layoutA rl = Some la /\ layoutB rl = Some lb
           /\ rotated la = false /\ rotated lb = true
           /\ cutW lb = cutH la /\ cutH lb = cutW la
           /\ optimalKey rl
              = Some (if total la >=? total lb then A else B)).

(** What X1 says of the state after Calculate. *)
Definition displays_best (rl : Result) (s' : App.State) : Prop :=
  exists la lb d t,
    layoutA rl = Some la /\ layoutB rl = Some lb
    /\ App.displayLayout s' = Some d
    /\ d = spread_layout (layout_at rl (optimalKey rl)) rl
    /\ DL.total d = Some t
    /\ (JS.isNaN (total la) = false -> JS.isNaN (total lb) = false ->
        (t >=? total la) = true /\ (t >=? total lb) = true).

(** What X2 says of the state after Calculate. *)
Definition reports_error (rl : Result) (s' : App.State) : Prop :=
  exists d,
    App.displayLayout s' = Some d
    /\ DL.error d = error rl
    /\ DL.total d = Some 0 /\ DL.fitW d = Some 0 /\ DL.fitH d = Some 0
    /\ DL.rotated d = None /\ DL.cutW d = None /\ DL.cutH d = None
    /\ App.showsError s' = true /\ App.showsSketch s' = false
    /\ App.enabled App.Calculate s' = false
    /\ App.enabled App.Invert s' = false
    /\ App.enabled App.Revert s' = false.

(** What X4 says of the display [d] after Calculate and the display [d']
    after the Invert that follows. *)
Definition other_orientation (d d' : DL.t) : Prop :=
  (exists r, DL.rotated d = Some r /\ DL.rotated d' = Some (negb r))
  /\ DL.cutW d' = DL.cutH d /\ DL.cutH d' = DL.cutW d
  /\ DL.sheetW d' = DL.sheetW d /\ DL.sheetH d' = DL.sheetH d
  /\ DL.grip d' = DL.grip d /\ DL.tail d' = DL.tail d
  /\ DL.lateralMargin d' = DL.lateralMargin d
  /\ DL.gutter d' = DL.gutter d
  /\ (forall t t', DL.total d = Some t -> DL.total d' = Some t' ->
        JS.isNaN t = false -> JS.isNaN t' = false -> (t >=? t') = true).

(** What X7 says of a state. *)
Definition display_coherent (s : App.State) : Prop :=
  (App.displayLayout s = None ->
     App.isDirty s = true /\ App.currentLayoutKey s = App.optimal)
  /\ (App.showsError s = true -> App.showsSketch s = false).

(** The candidate Invert puts on display when the optimal one is shown. *)
Definition alternate (rl : Result) : option Layout :=
  layout_at rl (if is_A (optimalKey rl) then Some B else Some A).

(** The number an integer [p] of at most 53 binary digits rounds to:
    [p], shifted to 53 digits. *)
Definition nf (s : bool) (p : positive) : JS.number :=
  match (Zpos (digits2_pos p) - 53)%Z with
  | Zneg k => S754_finite s (Pos.iter xO p k) (Zpos (digits2_pos p) - 53)%Z
  | _ => S754_finite s p 0%Z
  end.

(** A number whose significand has at most 53 binary digits, as that of
    every binary64 value has. *)
Definition within_precision (x : JS.number) : Prop :=
  match x with
  | S754_finite _ m _ => (Zpos m < 2 ^ 53)%Z
  | _ => True
  end.

(** Neither NaN nor an infinity. *)
Definition is_finite (x : JS.number) : bool :=
  match x with
  | S754_zero _ | S754_finite _ _ _ => true
  | _ => false
  end.

(** The styles the loops rely on. *)
Definition piece_styles (ctx : Canvas.Context) : Prop :=
  Canvas.strokeStyle ctx = Canvas.PIECE_STROKE
  /\ Canvas.lineWidth ctx = JS.of_Z 1.

(** ** Facts about numbers *)

Lemma or_zero_not_nan (x : JS.number) : JS.isNaN (x ||| 0) = false.
Proof. destruct x; reflexivity. Qed.

Lemma Math_max_zero_not_nan (x : JS.number) :
  JS.isNaN x = false -> JS.isNaN (JS.Math_max 0 x) = false.
Proof.
  destruct x as [s | s | | s m e]; try discriminate; intros _; try reflexivity.
  - destruct s; reflexivity.
  - destruct s; reflexivity.
Qed.

Lemma coerce_not_nan (s : string) : JS.isNaN (coerce s) = false.
Proof. apply Math_max_zero_not_nan, or_zero_not_nan. Qed.

(** For a number that is not NaN, "not [<= 0]" is "[> 0]". *)
Lemma leb_zero_false (x : JS.number) :
  JS.isNaN x = false -> (x <=? 0) = negb (0 <? x).
Proof.
  destruct x as [s | s | | s m e]; try discriminate; intros _;
    try destruct s; reflexivity.
Qed.

Lemma eqb_geb (x y : JS.number) : (x ==? y) = true -> (x >=? y) = true.
Proof.
  unfold JS.eqb, JS.geb, SFeqb.
  destruct (SFcompare x y) as [[ | | ] | ]; congruence.
Qed.

(** Addition does not depend on the order of its operands. *)
Lemma add_comm (x y : JS.number) : x + y = y + x.
Proof.
  unfold JS.add.
  destruct x as [sx | sx | | sx mx ex], y as [sy | sy | | sy my ey];
    try reflexivity;
    try (destruct sx, sy; reflexivity).
  cbn [SFadd]. rewrite (Z.min_comm ey ex). f_equal. apply Z.add_comm.
Qed.

(** ** Whole numbers

    The integers below [2 ^ 53] are numbers, and on them adding 1,
    subtracting 1 and comparing are exact.  The two loops of the sketch
    count with them. *)

Section WholeNumbers.

Local Open Scope Z_scope.

Lemma digits2_size p : digits2_pos p = Pos.size p.
Proof. induction p; cbn; congruence. Qed.

Lemma iter_xO_mul p n : Zpos (Pos.iter xO p n) = Zpos p * 2 ^ Zpos n.
Proof.
  revert p. induction n using Pos.peano_ind; intros p.
  - cbn. lia.
  - rewrite Pos.iter_succ. rewrite Pos2Z.inj_succ, Z.pow_succ_r by lia.
    change (Zpos (Pos.iter xO p n)~0) with (2 * Zpos (Pos.iter xO p n)).
    rewrite IHn. lia.
Qed.

Lemma digits_iter_xO p n :
  Zpos (digits2_pos (Pos.iter xO p n)) = Zpos (digits2_pos p) + Zpos n.
Proof.
  induction n using Pos.peano_ind.
  - cbn. lia.
  - rewrite Pos.iter_succ. cbn [digits2_pos]. lia.
Qed.

(** shifting right a mantissa that ends in [n] zeros *)
Lemma shr_iter_xO n : forall p,
  iter_pos shr_1 n (Build_shr_record (Zpos (Pos.iter xO p n)) false false)
  = Build_shr_record (Zpos p) false false.
Proof.
  induction n; intros p.
  - change (Pos.iter xO p n~1) with (xO (Pos.iter xO (Pos.iter xO p n) n)).
    change (iter_pos shr_1 n~1 ?x) with (iter_pos shr_1 n (iter_pos shr_1 n (shr_1 x))).
    cbn [shr_1 orb]. rewrite IHn, IHn. reflexivity.
  - change (Pos.iter xO p n~0) with (Pos.iter xO (Pos.iter xO p n) n).
    change (iter_pos shr_1 n~0 ?x) with (iter_pos shr_1 n (iter_pos shr_1 n x)).
    rewrite IHn, IHn. reflexivity.
  - reflexivity.
Qed.

Lemma fexp_small e : -1021 <= e -> fexp 53 1024 e = e - 53.
Proof. intros. unfold fexp, emin. lia. Qed.

Lemma aux_canonical s m e :
  Zpos (digits2_pos m) = 53 -> -1074 <= e <= 971 ->
  binary_round_aux 53 1024 s (Zpos m) e loc_Exact = S754_finite s m e.
Proof.
  intros Hd He. unfold binary_round_aux, shr_fexp.
  cbn [Zdigits2 shr_record_of_loc]. rewrite Hd, fexp_small by lia.
  replace (53 + e - 53 - e) with 0 by lia.
  cbn [shr shr_m loc_of_shr_record round_nearest_even Zdigits2].
  rewrite Hd, fexp_small by lia.
  replace (53 + e - 53 - e) with 0 by lia.
  cbn [shr shr_m].
  replace (e <=? 1024 - 53) with true by (symmetry; apply Z.leb_le; lia).
  reflexivity.
Qed.

Lemma round_nf s p :
  Zpos (digits2_pos p) <= 53 -> binary_round 53 1024 s p 0 = nf s p.
Proof.
  intros Hd. unfold binary_round, nf, shl_align.
  rewrite fexp_small by lia.
  replace (Zpos (digits2_pos p) + 0 - 53 - 0) with (Zpos (digits2_pos p) - 53) by lia.
  replace (Zpos (digits2_pos p) + 0 - 53) with (Zpos (digits2_pos p) - 53) by lia.
  destruct (Zpos (digits2_pos p) - 53) as [ | k | k ] eqn:E.
  - apply aux_canonical; lia.
  - lia.
  - apply aux_canonical.
    + rewrite digits_iter_xO. lia.
    + lia.
Qed.

Lemma round_shifted s p :
  Zpos (digits2_pos p) <= 53 ->
  binary_round 53 1024 s (Pos.iter xO p 52) (-52) = nf s p.
Proof.
  intros Hd. unfold binary_round, shl_align.
  rewrite digits_iter_xO, fexp_small by lia.
  replace (Zpos (digits2_pos p) + 52 + -52 - 53 - -52)
    with (Zpos (digits2_pos p) - 1) by lia.
  assert (Hnn : exists z, Zpos (digits2_pos p) - 1 = z /\ 0 <= z) by (eexists; split; [reflexivity | lia]).
  destruct Hnn as (z & Ez & Hz). rewrite Ez.
  destruct z as [ | q | q ]; [ | | lia ].
  - (* one digit: p = 1 *)
    unfold nf. replace (Zpos (digits2_pos p) - 53) with (Zneg 52) by lia.
    replace (Zneg 52) with (-52) by reflexivity.
    apply aux_canonical; [ rewrite digits_iter_xO; lia | lia ].
  - unfold binary_round_aux, shr_fexp.
    cbn [Zdigits2 shr_record_of_loc].
    rewrite digits_iter_xO, fexp_small by lia.
    replace (Zpos (digits2_pos p) + 52 + -52 - 53 - -52) with (Zpos q) by lia.
    cbn [shr]. unfold nf.
    destruct (Zpos (digits2_pos p) - 53) as [ | k | k ] eqn:E; [ | lia | ].
    + (* 53 digits *)
      assert (q = 52%positive) by lia. subst q.
      rewrite shr_iter_xO.
      cbn [shr_m loc_of_shr_record round_nearest_even Zdigits2].
      replace (Zpos (digits2_pos p)) with 53 by lia.
      rewrite fexp_small by lia. cbn [Z.add Z.sub Z.opp Z.pos_sub shr shr_m].
      cbn. reflexivity.
    + replace (Pos.iter xO p 52) with (Pos.iter xO (Pos.iter xO p k) q)
        by (rewrite <- Pos.iter_add; f_equal; lia).
      rewrite shr_iter_xO.
      cbn [shr_m loc_of_shr_record round_nearest_even Zdigits2].
      rewrite digits_iter_xO, fexp_small by lia.
      replace (Zpos (digits2_pos p) + Zpos k + (-52 + Zpos q) - 53
               - (-52 + Zpos q)) with 0 by lia.
      cbn [shr shr_m].
      replace (-52 + Zpos q <=? 1024 - 53) with true
        by (symmetry; apply Z.leb_le; lia).
      f_equal. lia.
Qed.

Lemma digits_bound p : Zpos p < 2 ^ 53 -> Zpos (digits2_pos p) <= 53.
Proof.
  intros Hp. rewrite digits2_size.
  pose proof (Pos.size_le p) as Hs.
  apply Pos2Z.pos_le_pos in Hs. rewrite Pos2Z.inj_pow in Hs.
  change (Zpos p~0) with (2 * Zpos p) in Hs.
  destruct (Z_le_gt_dec (Zpos (Pos.size p)) 53) as [H | H]; [ exact H | ].
  exfalso.
  assert (2 ^ 54 <= 2 ^ Zpos (Pos.size p)) by (apply Z.pow_le_mono_r; lia).
  change (Zpos 2) with 2 in Hs. lia.
Qed.

Lemma digits_lower p : 2 ^ (Zpos (digits2_pos p) - 1) <= Zpos p.
Proof.
  rewrite digits2_size.
  pose proof (Pos.size_le p) as Hs.
  apply Pos2Z.pos_le_pos in Hs. rewrite Pos2Z.inj_pow in Hs.
  change (Zpos p~0) with (2 * Zpos p) in Hs. change (Zpos 2) with 2 in Hs.
  replace (Zpos (Pos.size p)) with (Z.succ (Zpos (Pos.size p) - 1)) in Hs by lia.
  rewrite Z.pow_succ_r in Hs by lia. lia.
Qed.

Lemma digits_upper p : Zpos p < 2 ^ Zpos (digits2_pos p).
Proof.
  rewrite digits2_size.
  pose proof (Pos.size_gt p) as Hs.
  apply Pos2Z.pos_lt_pos in Hs. rewrite Pos2Z.inj_pow in Hs. exact Hs.
Qed.

Lemma shl_align_value m e e' :
  e' <= e -> Zpos (fst (shl_align m e e')) = Zpos m * 2 ^ (e - e').
Proof.
  intros H. unfold shl_align.
  destruct (e' - e) as [ | d | d ] eqn:E; cbn [fst].
  - replace (e - e') with 0 by lia. lia.
  - lia.
  - rewrite iter_xO_mul. f_equal. f_equal. lia.
Qed.

(** the exponent and the value of a normal form *)
Lemma nf_finite s p :
  Zpos (digits2_pos p) <= 53 ->
  exists m e, nf s p = S754_finite s m e
              /\ e = Zpos (digits2_pos p) - 53
              /\ Zpos m = Zpos p * 2 ^ (53 - Zpos (digits2_pos p))
              /\ Zpos (digits2_pos m) = 53.
Proof.
  intros Hd. unfold nf.
  destruct (Zpos (digits2_pos p) - 53) as [ | k | k ] eqn:E; [ | lia | ].
  - exists p, 0. split; [ reflexivity | ].
    split; [ reflexivity | ]. split; [ | lia ].
    replace (53 - Zpos (digits2_pos p)) with 0 by lia. lia.
  - eexists; eexists. split; [ reflexivity | ].
    split; [ reflexivity | ].
    split; [ | rewrite digits_iter_xO; lia ].
    rewrite iter_xO_mul. f_equal. f_equal. lia.
Qed.

Lemma of_Z_nf p : Zpos p < 2 ^ 53 -> JS.of_Z (Zpos p) = nf false p.
Proof. intros H. apply round_nf, digits_bound, H. Qed.

Lemma normalize_shifted k :
  0 <= k < 2 ^ 53 ->
  binary_normalize 53 1024 (k * 2 ^ 52) (-52) false = JS.of_Z k.
Proof.
  intros Hk. destruct k as [ | p | p ]; [ reflexivity | | lia ].
  rewrite of_Z_nf by lia.
  replace (Zpos p * 2 ^ 52) with (Zpos (Pos.iter xO p 52))
    by (rewrite iter_xO_mul; reflexivity).
  apply round_shifted, digits_bound. lia.
Qed.

Lemma aligned_value p :
  Zpos p < 2 ^ 53 ->
  exists m e, JS.of_Z (Zpos p) = S754_finite false m e
              /\ Z.min e (-52) = -52
              /\ Z.min (-52) e = -52
              /\ Zpos (fst (shl_align m e (-52))) = Zpos p * 2 ^ 52.
Proof.
  intros Hp. rewrite of_Z_nf by exact Hp.
  pose proof (digits_bound p Hp) as Hd.
  destruct (nf_finite false p Hd) as (m & e & -> & He & Hm & _).
  exists m, e. split; [ reflexivity | ].
  assert (-52 <= e) by lia.
  repeat split; try lia.
  rewrite shl_align_value by lia. rewrite Hm, He.
  rewrite <- Z.mul_assoc, <- Z.pow_add_r by lia. f_equal. f_equal. lia.
Qed.

Lemma of_Z_one : JS.of_Z 1 = S754_finite false 4503599627370496 (-52).
Proof. reflexivity. Qed.

Lemma add_one k :
  0 <= k -> k + 1 < 2 ^ 53 -> JS.add (JS.of_Z k) (JS.of_Z 1) = JS.of_Z (k + 1).
Proof.
  intros H0 H1. destruct k as [ | p | p ]; [ reflexivity | | lia ].
  destruct (aligned_value p) as (m & e & -> & Hmin & _ & Hv); [ lia | ].
  rewrite of_Z_one. unfold JS.add. cbn [SFadd]. rewrite Hmin.
  cbn [cond_Zopp]. rewrite Hv.
  change (Zpos (fst (shl_align 4503599627370496 (-52) (-52)))) with (2 ^ 52).
  replace (Zpos p * 2 ^ 52 + 2 ^ 52) with ((Zpos p + 1) * 2 ^ 52) by lia.
  apply normalize_shifted. lia.
Qed.

Lemma sub_one k :
  1 <= k < 2 ^ 53 -> JS.sub (JS.of_Z k) (JS.of_Z 1) = JS.of_Z (k - 1).
Proof.
  intros H1. destruct k as [ | p | p ]; [ lia | | lia ].
  destruct (aligned_value p) as (m & e & -> & Hmin & _ & Hv); [ lia | ].
  rewrite of_Z_one. unfold JS.sub. cbn [SFsub]. rewrite Hmin.
  cbn [cond_Zopp]. rewrite Hv.
  change (Zpos (fst (shl_align 4503599627370496 (-52) (-52)))) with (2 ^ 52).
  replace (Zpos p * 2 ^ 52 - 2 ^ 52) with ((Zpos p - 1) * 2 ^ 52) by lia.
  apply normalize_shifted. lia.
Qed.

Lemma ltb_of_Z a b :
  0 <= a < 2 ^ 53 -> 0 <= b < 2 ^ 53 ->
  JS.ltb (JS.of_Z a) (JS.of_Z b) = (a <? b).
Proof.
  intros Ha Hb.
  destruct a as [ | p | p ], b as [ | q | q ]; try lia; try reflexivity.
  - rewrite of_Z_nf by lia.
    destruct (nf_finite false q (digits_bound q ltac:(lia))) as (m & e & -> & _).
    reflexivity.
  - rewrite of_Z_nf by lia.
    destruct (nf_finite false p (digits_bound p ltac:(lia))) as (m & e & -> & _).
    reflexivity.
  - rewrite !of_Z_nf by lia.
    pose proof (digits_bound p ltac:(lia)) as Hdp.
    pose proof (digits_bound q ltac:(lia)) as Hdq.
    destruct (nf_finite false p Hdp) as (mp & ep & -> & Hep & Hmp & _).
    destruct (nf_finite false q Hdq) as (mq & eq & -> & Heq & Hmq & _).
    pose proof (digits_lower p). pose proof (digits_upper p).
    pose proof (digits_lower q). pose proof (digits_upper q).
    unfold JS.ltb, SFltb. cbn [SFcompare].
    destruct (Z.compare_spec ep eq) as [E | E | E].
    + change (Pos.compare_cont Eq mp mq) with (Pos.compare mp mq).
      rewrite Pos2Z.inj_compare, Hmp, Hmq.
      replace (Zpos (digits2_pos q)) with (Zpos (digits2_pos p)) by lia.
      assert (Hc : 0 < 2 ^ (53 - Zpos (digits2_pos p)))
        by (apply Z.pow_pos_nonneg; lia).
      destruct (Z.compare_spec (Zpos p * 2 ^ (53 - Zpos (digits2_pos p)))
                               (Zpos q * 2 ^ (53 - Zpos (digits2_pos p))));
        symmetry; [ apply Z.ltb_ge | apply Z.ltb_lt | apply Z.ltb_ge ]; nia.
    + assert (2 ^ Zpos (digits2_pos p) <= 2 ^ (Zpos (digits2_pos q) - 1))
        by (apply Z.pow_le_mono_r; lia).
      symmetry. apply Z.ltb_lt. lia.
    + assert (2 ^ Zpos (digits2_pos q) <= 2 ^ (Zpos (digits2_pos p) - 1))
        by (apply Z.pow_le_mono_r; lia).
      symmetry. apply Z.ltb_ge. lia.
Qed.

(** Rounding [r * 2 ^ j] at exponent [- j] gives the normal form of [r]. *)
Lemma aux_shifted s r j :
  Zpos (digits2_pos r) <= 53 ->
  53 - Zpos (digits2_pos r) <= Zpos j ->
  binary_round_aux 53 1024 s (Zpos (Pos.iter xO r j)) (Zneg j) loc_Exact
  = nf s r.
Proof.
  intros Hd Hj.
  destruct (Z.eq_dec (Zpos j) (53 - Zpos (digits2_pos r))) as [E | E].
  - unfold nf. replace (Zpos (digits2_pos r) - 53) with (Zneg j) by lia.
    apply aux_canonical; [ rewrite digits_iter_xO; lia | lia ].
  - assert (Hq : exists q, Zpos q = Zpos (digits2_pos r) - 53 + Zpos j).
    { destruct (Zpos (digits2_pos r) - 53 + Zpos j) as [ | q | q ] eqn:Eq;
        [ lia | exists q; reflexivity | lia ]. }
    destruct Hq as (q & Hq).
    unfold binary_round_aux, shr_fexp.
    cbn [Zdigits2 shr_record_of_loc].
    rewrite digits_iter_xO, fexp_small by lia.
    replace (Zpos (digits2_pos r) + Zpos j + Zneg j - 53 - Zneg j)
      with (Zpos q) by lia.
    cbn [shr]. unfold nf.
    destruct (Zpos (digits2_pos r) - 53) as [ | k | k ] eqn:Ek; [ | lia | ].
    + assert (q = j) by lia. subst q.
      rewrite shr_iter_xO.
      cbn [shr_m loc_of_shr_record round_nearest_even Zdigits2].
      replace (Zpos (digits2_pos r)) with 53 by lia.
      replace (Zneg j + Zpos j) with 0 by lia.
      reflexivity.
    + replace (Pos.iter xO r j) with (Pos.iter xO (Pos.iter xO r k) q)
        by (rewrite <- Pos.iter_add; f_equal; lia).
      rewrite shr_iter_xO.
      cbn [shr_m loc_of_shr_record round_nearest_even Zdigits2].
      rewrite digits_iter_xO, fexp_small by lia.
      replace (Zpos (digits2_pos r) + Zpos k + (Zneg j + Zpos q) - 53
               - (Zneg j + Zpos q)) with 0 by lia.
      cbn [shr shr_m].
      replace (Zneg j + Zpos q <=? 1024 - 53) with true
        by (symmetry; apply Z.leb_le; lia).
      f_equal. lia.
Qed.

Lemma digits_mul p q :
  Zpos (digits2_pos p) + Zpos (digits2_pos q) - 1
  <= Zpos (digits2_pos (p * q)).
Proof.
  pose proof (digits_lower p) as Hp. pose proof (digits_lower q) as Hq.
  pose proof (digits_upper (p * q)) as Hpq.
  rewrite Pos2Z.inj_mul in Hpq.
  destruct (Z_le_gt_dec (Zpos (digits2_pos p) + Zpos (digits2_pos q) - 1)
                        (Zpos (digits2_pos (p * q)))) as [H | H];
    [ exact H | exfalso ].
  assert (H1 : 2 ^ (Zpos (digits2_pos p) - 1) * 2 ^ (Zpos (digits2_pos q) - 1)
               <= Zpos p * Zpos q) by (apply Z.mul_le_mono_nonneg; lia).
  rewrite <- Z.pow_add_r in H1 by lia.
  assert (H2 : 2 ^ Zpos (digits2_pos (p * q))
               <= 2 ^ (Zpos (digits2_pos p) - 1 + (Zpos (digits2_pos q) - 1)))
    by (apply Z.pow_le_mono_r; lia).
  lia.
Qed.

Lemma mul_whole a b :
  0 <= a < 2 ^ 53 -> 0 <= b < 2 ^ 53 -> a * b < 2 ^ 53 ->
  JS.mul (JS.of_Z a) (JS.of_Z b) = JS.of_Z (a * b).
Proof.
  intros Ha Hb Hab.
  destruct a as [ | p | p ], b as [ | q | q ]; try lia; try reflexivity.
  - rewrite of_Z_nf by lia.
    destruct (nf_finite false q (digits_bound q ltac:(lia))) as (m & e & -> & _).
    reflexivity.
  - rewrite of_Z_nf by lia.
    destruct (nf_finite false p (digits_bound p ltac:(lia))) as (m & e & -> & _).
    rewrite Z.mul_0_r. reflexivity.
  - assert (Hp : Zpos p < 2 ^ 53) by lia.
    assert (Hq : Zpos q < 2 ^ 53) by lia.
    rewrite !of_Z_nf by assumption.
    pose proof (digits_bound p Hp) as Hdp.
    pose proof (digits_bound q Hq) as Hdq.
    pose proof (digits_bound (p * q) Hab) as Hdpq.
    pose proof (digits_mul p q) as Hm.
    destruct (nf_finite false p Hdp) as (mp & ep & -> & Hep & Hmp & _).
    destruct (nf_finite false q Hdq) as (mq & eq & -> & Heq & Hmq & _).
    change (Zpos p * Zpos q) with (Zpos (p * q)).
    rewrite of_Z_nf by exact Hab.
    unfold JS.mul. cbn [SFmul xorb].
    assert (Hj : exists j, Zpos j = 106 - Zpos (digits2_pos p)
                                   - Zpos (digits2_pos q)).
    { destruct (106 - Zpos (digits2_pos p) - Zpos (digits2_pos q))
        as [ | j | j ] eqn:Ej; [ lia | exists j; reflexivity | lia ]. }
    destruct Hj as (j & Hj).
    replace (ep + eq) with (Zneg j) by lia.
    replace (Zpos (mp * mq)) with (Zpos (Pos.iter xO (p * q)%positive j)).
    + apply aux_shifted; lia.
    + rewrite iter_xO_mul, (Pos2Z.inj_mul mp mq), (Pos2Z.inj_mul p q), Hmp, Hmq, Hj.
      replace (106 - Zpos (digits2_pos p) - Zpos (digits2_pos q))
        with ((53 - Zpos (digits2_pos p)) + (53 - Zpos (digits2_pos q)))
        by lia.
      rewrite Z.pow_add_r by lia. ring.
Qed.

(** Every integer up to [2 ^ 53] is below a number above [2 ^ 53]. *)
Lemma below_bound (w : JS.number) (k : Z) :
  JS.ltb (JS.of_Z (2 ^ 53)) w = true -> 0 <= k <= 2 ^ 53 ->
  JS.ltb (JS.of_Z k) w = true.
Proof.
  intros Hw Hk.
  destruct (Z.eq_dec k (2 ^ 53)) as [-> | Hne]; [ exact Hw | ].
  assert (Hlt : k < 2 ^ 53) by lia.
  change (JS.of_Z (2 ^ 53)) with (S754_finite false 4503599627370496 1) in Hw.
  destruct w as [sw | sw | | sw mw ew]; try discriminate.
  - destruct sw; [ discriminate | ].
    destruct k as [ | p | p ]; [ reflexivity | | lia ].
    rewrite of_Z_nf by lia.
    destruct (nf_finite false p (digits_bound p Hlt)) as (m & e & -> & _).
    reflexivity.
  - destruct sw; [ discriminate | ].
    destruct k as [ | p | p ]; [ reflexivity | | lia ].
    rewrite of_Z_nf by lia.
    pose proof (digits_bound p Hlt) as Hd.
    destruct (nf_finite false p Hd) as (m & e & -> & He & _).
    unfold JS.ltb, SFltb in *. cbn [SFcompare] in *.
    destruct (Z.compare_spec 1 ew) as [E | E | E]; try discriminate;
      replace (e ?= ew) with Lt by (symmetry; apply Z.compare_lt_iff; lia);
      reflexivity.
Qed.

(** Adding 1 never leads beyond [2 ^ 53]: there the sum rounds back. *)
Lemma counter_step (k : Z) :
  0 <= k <= 2 ^ 53 ->
  exists k', 0 <= k' <= 2 ^ 53 /\ JS.add (JS.of_Z k) (JS.of_Z 1) = JS.of_Z k'.
Proof.
  intros Hk.
  destruct (Z.eq_dec k (2 ^ 53)) as [-> | H1].
  { exists (2 ^ 53). split; [ lia | vm_compute; reflexivity ]. }
  destruct (Z.eq_dec k (2 ^ 53 - 1)) as [-> | H2].
  { exists (2 ^ 53). split; [ lia | vm_compute; reflexivity ]. }
  exists (k + 1). split; [ lia | apply add_one; lia ].
Qed.

End WholeNumbers.

(** ** Rounding

    Whatever its operands, a sum that is rounded has a significand of at
    most 53 binary digits, and on such a number [Math.floor] is the floor
    of the value. *)

Section Rounding.

Local Open Scope Z_scope.

Lemma iter_pos_iter {T : Type} (f : T -> T) n :
  forall x, iter_pos f n x = Pos.iter f x n.
Proof.
  induction n; intros x; cbn [iter_pos Pos.iter].
  - rewrite !IHn, !Pos.iter_swap. reflexivity.
  - rewrite !IHn. reflexivity.
  - reflexivity.
Qed.

(** One shift to the right halves the significand. *)
Lemma shr_1_m r : 0 <= shr_m r -> shr_m (shr_1 r) = shr_m r / 2.
Proof.
  destruct r as [m b s]. cbn [shr_m]. intros H.
  destruct m as [ | [p | p | ] | p]; cbn [shr_1 shr_m]; try lia;
    try reflexivity.
  - rewrite Pos2Z.inj_xI. apply (Z.div_unique _ _ _ 1); lia.
  - rewrite Pos2Z.inj_xO. apply (Z.div_unique _ _ _ 0); lia.
Qed.

Lemma shr_iter_m k r :
  0 <= shr_m r -> shr_m (iter_pos shr_1 k r) = shr_m r / 2 ^ Zpos k.
Proof.
  intros H. rewrite iter_pos_iter.
  induction k using Pos.peano_ind.
  - cbn [Pos.iter]. rewrite shr_1_m by exact H. reflexivity.
  - rewrite Pos.iter_succ, shr_1_m.
    + rewrite IHk, Pos2Z.inj_succ, Z.pow_succ_r by lia.
      rewrite Z.div_div by lia. f_equal. lia.
    + rewrite IHk. apply Z.div_pos; lia.
Qed.

Lemma Zdigits2_upper m : 0 <= m -> m < 2 ^ Zdigits2 m.
Proof.
  destruct m as [ | p | p ]; intros H; [ cbn; lia | | lia ].
  apply digits_upper.
Qed.

Lemma Zdigits2_nonneg m : 0 <= Zdigits2 m.
Proof. destruct m; cbn; lia. Qed.

(** What the shift to the exponent of the format leaves of a
    significand. *)
Lemma shr_fexp_bound m e l :
  0 <= m ->
  0 <= shr_m (fst (shr_fexp 53 1024 m e l)) < 2 ^ 53.
Proof.
  intros Hm. unfold shr_fexp.
  pose proof (Zdigits2_upper m Hm) as Hu.
  pose proof (Zdigits2_nonneg m) as Hd.
  assert (Hs : shr_m (shr_record_of_loc m l) = m)
    by (destruct l as [ | [ | | ]]; reflexivity).
  assert (Hf : Zdigits2 m + e - 53 <= fexp 53 1024 (Zdigits2 m + e))
    by (unfold fexp; lia).
  destruct (fexp 53 1024 (Zdigits2 m + e) - e) as [ | k | k ] eqn:E;
    cbn [shr fst].
  - rewrite Hs. split; [ lia | ].
    assert (2 ^ Zdigits2 m <= 2 ^ 53) by (apply Z.pow_le_mono_r; lia). lia.
  - rewrite shr_iter_m, Hs by lia.
    split; [ apply Z.div_pos; lia | ].
    apply Z.div_lt_upper_bound; [ lia | ].
    rewrite <- Z.pow_add_r by lia.
    assert (2 ^ Zdigits2 m <= 2 ^ (Zpos k + 53))
      by (apply Z.pow_le_mono_r; lia). lia.
  - rewrite Hs. split; [ lia | ].
    assert (2 ^ Zdigits2 m <= 2 ^ 53) by (apply Z.pow_le_mono_r; lia). lia.
Qed.

Lemma round_nearest_even_nonneg m l : 0 <= m -> 0 <= round_nearest_even m l.
Proof.
  intros H. destruct l as [ | [ | | ]]; cbn [round_nearest_even];
    try destruct (Z.even m); lia.
Qed.

Lemma binary_round_aux_precision s m e l :
  0 <= m -> within_precision (binary_round_aux 53 1024 s m e l).
Proof.
  intros Hm. unfold binary_round_aux.
  destruct (shr_fexp 53 1024 m e l) as [r1 e1] eqn:E1.
  pose proof (shr_fexp_bound m e l Hm) as H1. rewrite E1 in H1. cbn [fst] in H1.
  set (m1 := round_nearest_even (shr_m r1) (loc_of_shr_record r1)).
  assert (H2 : 0 <= m1) by (apply round_nearest_even_nonneg; lia).
  pose proof (shr_fexp_bound m1 e1 loc_Exact H2) as H3.
  destruct (shr_fexp 53 1024 m1 e1 loc_Exact) as [r2 e2]. cbn [fst] in H3.
  destruct (shr_m r2) as [ | p | p ]; cbn [within_precision]; try exact I.
  destruct (e2 <=? 1024 - 53); cbn [within_precision]; [ lia | exact I ].
Qed.

Lemma binary_normalize_precision m e s :
  within_precision (binary_normalize 53 1024 m e s).
Proof.
  destruct m as [ | p | p ]; cbn [binary_normalize]; [ exact I | | ];
    unfold binary_round;
    destruct (shl_align p e _) as [mz ez];
    apply binary_round_aux_precision; lia.
Qed.

(** The sum the floor of [calculateFit] is taken of. *)
Lemma add_EPSILON_precision x : within_precision (JS.add x JS.EPSILON).
Proof.
  unfold JS.add. destruct x as [s | s | | s m e]; cbn [SFadd].
  - reflexivity.
  - exact I.
  - exact I.
  - apply binary_normalize_precision.
Qed.

Lemma to_Q_nf s p :
  Zpos (digits2_pos p) <= 53 ->
  (JS.to_Q (nf s p) == inject_Z (cond_Zopp s (Zpos p)))%Q.
Proof.
  intros Hd. unfold nf.
  destruct (Zpos (digits2_pos p) - 53) as [ | k | k ] eqn:E; [ | lia | ].
  - cbn [JS.to_Q Z.leb Z.compare]. rewrite Z.mul_1_r. reflexivity.
  - cbn [JS.to_Q Z.leb Z.compare Z.opp].
    unfold Qeq. cbn [Qnum Qden inject_Z].
    rewrite Z2Pos.id by (apply Z.pow_pos_nonneg; lia).
    destruct s; cbn [cond_Zopp]; rewrite iter_xO_mul; lia.
Qed.

(** An integer below [2 ^ 53] in size is rounded to itself. *)
Lemma normalize_whole z s :
  Z.abs z < 2 ^ 53 ->
  (JS.to_Q (binary_normalize 53 1024 z 0 s) == inject_Z z)%Q.
Proof.
  intros Hz. destruct z as [ | p | p ]; cbn [binary_normalize].
  - reflexivity.
  - rewrite round_nf by (apply digits_bound; lia). apply (to_Q_nf false).
    apply digits_bound; lia.
  - rewrite round_nf by (apply digits_bound; lia). apply (to_Q_nf true).
    apply digits_bound; lia.
Qed.

(** [Math.floor] gives the largest integer not above the value. *)
Lemma Math_floor_value x :
  within_precision x -> is_finite x = true ->
  (JS.to_Q (JS.Math_floor x) == inject_Z (Qfloor (JS.to_Q x)))%Q.
Proof.
  destruct x as [s | s | | s m e]; try discriminate; intros Hp _.
  - reflexivity.
  - cbn [within_precision] in Hp. unfold JS.Math_floor, JS.to_Q.
    destruct (0 <=? e) eqn:He.
    + cbn [JS.to_Q]. rewrite He, Qfloor_Z. reflexivity.
    + apply Z.leb_gt in He.
      assert (Hpow : 0 < 2 ^ (- e)) by (apply Z.pow_pos_nonneg; lia).
      unfold Qfloor. rewrite Z2Pos.id by exact Hpow.
      rewrite Z.shiftr_div_pow2 by lia.
      apply normalize_whole.
      pose proof (Z.div_mod (cond_Zopp s (Zpos m)) (2 ^ (- e)) ltac:(lia))
        as Hdm.
      pose proof (Z.mod_pos_bound (cond_Zopp s (Zpos m)) (2 ^ (- e)) Hpow)
        as Hb.
      destruct s; cbn [cond_Zopp] in *; nia.
Qed.

End Rounding.

(** Past the test of line 65, the fit is the floor of the quotient to
    which [Number.EPSILON] was added, and the quotient itself when that
    is NaN or an infinity. *)
Lemma calculateFit_floor L P G :
  let q := (L + G) / (P + G) + JS.EPSILON in
  (P + G <=? 0) = false ->
  (is_finite q = true ->
     (JS.to_Q (calculateFit L P G) == inject_Z (Qfloor (JS.to_Q q)))%Q)
  /\ (is_finite q = false -> calculateFit L P G = q).
Proof.
  cbv zeta. intros Hpos. unfold calculateFit. rewrite Hpos. split.
  - apply Math_floor_value, add_EPSILON_precision.
  - destruct ((L + G) / (P + G) + JS.EPSILON); try discriminate; reflexivity.
Qed.

(** ** Proof support *)

Lemma errors_differ : DIMENSIONS_ERROR <> MARGINS_ERROR.
Proof. vm_compute. discriminate. Qed.

(** Replaces the coercion of the string [s] by a variable [X] that is
    known not to be NaN. *)
Ltac name_input s X H :=
  pose proof (coerce_not_nan s) as H; unfold coerce in H; revert H;
  generalize (JS.Math_max 0 (JS.parseFloat s ||| 0)); intros X H.

Ltac name_inputs cw ch sw sh lm gt tl gr :=
  unfold valid, coerce; unfold rawLayout; cbv zeta;
  let H := fresh "nn" in name_input cw ltac:(fresh "CW") H;
  let H := fresh "nn" in name_input ch ltac:(fresh "CH") H;
  let H := fresh "nn" in name_input sw ltac:(fresh "SW") H;
  let H := fresh "nn" in name_input sh ltac:(fresh "SH") H;
  let H := fresh "nn" in name_input lm ltac:(fresh "LM") H;
  let H := fresh "nn" in name_input gt ltac:(fresh "GT") H;
  let H := fresh "nn" in name_input tl ltac:(fresh "G_calc") H;
  let H := fresh "nn" in name_input gr ltac:(fresh "T_calc") H.

(** Splits on the two validation tests of [rawLayout]. *)
Ltac split_validation :=
  match goal with
  | |- context [if ?d then _ else if ?m then _ else _] =>
      let Ed := fresh "Edim" in
      let Em := fresh "Emar" in
      destruct d eqn:Ed; [ | destruct m eqn:Em ]
  end.

(** Reduces the boolean connectives and the projections of the result,
    and leaves the arithmetic alone. *)
Ltac simpl_result :=
  cbn [orb andb negb error layoutA layoutB optimalKey sheetW sheetH grip
       lateralMargin gutter tail total fitW fitH rotated cutW cutH] in *.

(** ** The other scenarios of the specification *)

(** Scenario 2: a piece of width 0 is refused. *)
Example scenario_2 :
  error (rawLayout "0" "11.0" "17.0" "22.0" "0.375" "0.125" "0.375" "0.5")
  = Some DIMENSIONS_ERROR.
Proof. reflexivity. Qed.

(** Scenario 3: clearances of 0.6 and 0.6 on a sheet 1 high are refused. *)
Example scenario_3 :
  error (rawLayout "8.5" "11.0" "17.0" "1" "0.375" "0.125" "0.6" "0.6")
  = Some MARGINS_ERROR.
Proof. reflexivity. Qed.

(** Scenario 4: a 2 by 2 piece on a bare 10 by 10 sheet, 25 pieces either
    way, and the tie goes to the piece as given. *)
Example scenario_4 :
  let r := rawLayout "2" "2" "10" "10" "0" "0" "0" "0" in
  option_map counts (layoutA r) = Some (JS.of_Z 5, JS.of_Z 5, JS.of_Z 25)
  /\ option_map counts (layoutB r) = Some (JS.of_Z 5, JS.of_Z 5, JS.of_Z 25)
  /\ optimalKey r = Some A.
Proof. vm_compute. repeat split. Qed.

(** ** The claims *)



(** C2.  The dimensions error is reported exactly when one of the four
    coerced dimensions is [<= 0]; the margins error exactly when all four
    are positive and the two clearances together reach the sheet height or
    twice the lateral margin reaches the sheet width; with either error
    the result has no candidate and no optimal key, only the message and
    the six echoed coerced inputs. *)
Theorem validation_gating :
  forall cw ch sw sh lm gt tl gr,
    let r := rawLayout cw ch sw sh lm gt tl gr in
    let CW := coerce cw in
    let CH := coerce ch in
    let SW := coerce sw in
    let SH := coerce sh in
    let LM := coerce lm in
    let GT := coerce gt in
    let G_calc := coerce tl in
    let T_calc := coerce gr in
    (error r = Some DIMENSIONS_ERROR <->
       (CW <=? 0) = true \/ (CH <=? 0) = true \/
       (SW <=? 0) = true \/ (SH <=? 0) = true)
    /\ (error r = Some MARGINS_ERROR <->
          ((0 <? CW) = true /\ (0 <? CH) = true /\
           (0 <? SW) = true /\ (0 <? SH) = true)
          /\ ((G_calc + T_calc >=? SH) = true \/ (2 * LM >=? SW) = true))
    /\ (error r <> None ->
          layoutA r = None /\ layoutB r = None /\ optimalKey r = None
          /\ sheetW r = SW /\ sheetH r = SH /\ grip r = T_calc
          /\ lateralMargin r = LM /\ gutter r = GT /\ tail r = G_calc).
Proof.
  intros cw ch sw sh lm gt tl gr. cbv zeta.
  name_inputs cw ch sw sh lm gt tl gr.
  pose proof errors_differ as Hd.
  split_validation; simpl_result.
  - rewrite !orb_true_iff in Edim.
    split; [ tauto | split ].
    + split; [ intros E; congruence | ].
      intros [(H1 & H2 & H3 & H4) _]. exfalso.
      rewrite leb_zero_false in Edim by assumption.
      rewrite (leb_zero_false CH), (leb_zero_false SW), (leb_zero_false SH)
        in Edim by assumption.
      rewrite H1, H2, H3, H4 in Edim. cbn in Edim.
      destruct Edim as [[[E | E] | E] | E]; discriminate.
    + intros _. repeat split.
  - rewrite !orb_false_iff in Edim. destruct Edim as [[[E1 E2] E3] E4].
    rewrite orb_true_iff in Emar.
    split; [ | split ].
    + split; [ intros E; intuition congruence | ].
      intros [E | [E | [E | E]]]; congruence.
    + split; [ intros _ | reflexivity ].
      rewrite leb_zero_false in E1, E2, E3, E4 by assumption.
      apply negb_false_iff in E1, E2, E3, E4. tauto.
    + intros _. repeat split.
  - rewrite !orb_false_iff in Edim. destruct Edim as [[[E1 E2] E3] E4].
    rewrite orb_false_iff in Emar. destruct Emar as [M1 M2].
    split; [ | split ].
    + split; [ discriminate | ].
      intros [E | [E | [E | E]]]; congruence.
    + split; [ discriminate | ].
      intros [_ [E | E]]; congruence.
    + intros E. exfalso. apply E. reflexivity.
Qed.

(** C3.  A valid request yields both candidates, and the optimal key is
    the normal candidate's exactly when its total is [>=] the rotated
    one's, the rotated candidate's otherwise; equal totals select the
    normal candidate. *)
Theorem optimal_selection :
  forall cw ch sw sh lm gt tl gr,
    valid (rawLayout cw ch sw sh lm gt tl gr) ->
    selects_optimal (rawLayout cw ch sw sh lm gt tl gr).
Proof.
  intros cw ch sw sh lm gt tl gr. unfold selects_optimal.
  name_inputs cw ch sw sh lm gt tl gr.
  split_validation; simpl_result; intros Hv; try discriminate.
  eexists; eexists.
  split; [ reflexivity | split; [ reflexivity | ] ]. simpl_result.
  split; [ reflexivity | split; [ reflexivity | ] ].
  match goal with
  | |- context [if ?c then A else B] => destruct c eqn:Ege
  end.
  - repeat split; try reflexivity; discriminate.
  - repeat split; try reflexivity; try discriminate.
    intros Heq. apply eqb_geb in Heq. congruence.
Qed.

(** Scenario 4 of the specification, a square piece: the totals tie. *)
Lemma optimal_selection_witness :
  valid (rawLayout "2" "2" "10" "10" "0" "0" "0" "0")
  /\ selects_optimal (rawLayout "2" "2" "10" "10" "0" "0" "0" "0").
Proof.
  split; [ reflexivity | apply optimal_selection; reflexivity ].
Defined.

(** C4.  Scenario 1, the values the form starts with: a usable area of
    16.25 by 21.125, one piece as given, two pieces when turned, and the
    turned candidate chosen. *)
Theorem scenario_1 :
  let r := rawLayout "8.5" "11.0" "17.0" "22.0" "0.375" "0.125" "0.375" "0.5" in
  effectiveW (coerce "17.0") (coerce "0.375") = JS.parseFloat "16.25"
  /\ effectiveH (coerce "22.0") (coerce "0.375") (coerce "0.5")
     = JS.parseFloat "21.125"
  /\ layoutA r = Some {| total := JS.of_Z 1; fitW := JS.of_Z 1;
                         fitH := JS.of_Z 1; rotated := false;
                         cutW := JS.parseFloat "8.5";
                         cutH := JS.parseFloat "11" |}
  /\ layoutB r = Some {| total := JS.of_Z 2; fitW := JS.of_Z 1;
                         fitH := JS.of_Z 2; rotated := true;
                         cutW := JS.parseFloat "11";
                         cutH := JS.parseFloat "8.5" |}
  /\ optimalKey r = Some B
  /\ error r = None.
Proof. vm_compute. repeat split. Qed.

(** C5.  In both candidates of a valid request, [total] is the product
    of [fitW] (columns) and [fitH] (rows). *)
Theorem total_consistency :
  forall cw ch sw sh lm gt tl gr,
    valid (rawLayout cw ch sw sh lm gt tl gr) ->
    totals_consistent (rawLayout cw ch sw sh lm gt tl gr).
Proof.
  intros cw ch sw sh lm gt tl gr. unfold totals_consistent.
  name_inputs cw ch sw sh lm gt tl gr.
  split_validation; simpl_result; intros Hv; try discriminate.
  eexists; eexists. repeat split.
Qed.

Lemma total_consistency_witness :
  valid (rawLayout "8.5" "11.0" "17.0" "22.0" "0.375" "0.125" "0.375" "0.5")
  /\ totals_consistent
       (rawLayout "8.5" "11.0" "17.0" "22.0" "0.375" "0.125" "0.375" "0.5").
Proof.
  split; [ reflexivity | apply total_consistency; reflexivity ].
Defined.

Lemma coerce_clamp (s : string) : coerce s = clamp (JS.parseFloat s).
Proof.
  unfold coerce, clamp. destruct (JS.parseFloat s) as [sg | sg | | sg m e];
    try reflexivity; destruct sg; reflexivity.
Qed.

Lemma clamp_negative (p : JS.number) :
  JS.isNaN p = true \/ (p <? 0) = true -> clamp p = 0.
Proof.
  intros [H | H]; destruct p as [sg | sg | | sg m e];
    try discriminate; try reflexivity; destruct sg;
    try discriminate; reflexivity.
Qed.

(** C8.  Each input is coerced to [max(0, parsedValue)], where a value
    that does not parse to a number, or a negative one, gives 0; the
    result is never NaN and never below 0.  The result of [rawLayout]
    carries these coerced values, and depends on the eight strings through
    them only: validation and fitting never see the raw input. *)
Theorem input_clamping :
  (forall s, coerce s = clamp (JS.parseFloat s))
  /\ (forall s, JS.isNaN (JS.parseFloat s) = true \/
                (JS.parseFloat s <? 0) = true -> coerce s = 0)
  /\ (forall s, JS.isNaN (coerce s) = false /\ (coerce s >=? 0) = true)
  /\ (forall cw ch sw sh lm gt tl gr,
        uses_coerced_inputs cw ch sw sh lm gt tl gr
          (rawLayout cw ch sw sh lm gt tl gr))
  /\ (forall cw ch sw sh lm gt tl gr cw' ch' sw' sh' lm' gt' tl' gr',
        coerce cw = coerce cw' -> coerce ch = coerce ch' ->
        coerce sw = coerce sw' -> coerce sh = coerce sh' ->
        coerce lm = coerce lm' -> coerce gt = coerce gt' ->
        coerce tl = coerce tl' -> coerce gr = coerce gr' ->
        rawLayout cw ch sw sh lm gt tl gr
        = rawLayout cw' ch' sw' sh' lm' gt' tl' gr').
Proof.
  split; [ exact coerce_clamp | ].
  split; [ intros s H; rewrite coerce_clamp; apply clamp_negative, H | ].
  split.
  { intros s. split; [ apply coerce_not_nan | ].
    rewrite coerce_clamp.
    destruct (JS.parseFloat s) as [sg | sg | | sg m e];
      try reflexivity; destruct sg; reflexivity. }
  split.
  - intros cw ch sw sh lm gt tl gr. unfold uses_coerced_inputs.
    name_inputs cw ch sw sh lm gt tl gr.
    split_validation; simpl_result; repeat split; try discriminate;
      match goal with H : Some _ = Some _ |- _ => injection H as <- end;
      reflexivity.
  - intros cw ch sw sh lm gt tl gr cw' ch' sw' sh' lm' gt' tl' gr'.
    unfold coerce, rawLayout. cbv zeta.
    intros -> -> -> -> -> -> -> ->. reflexivity.
Qed.

(** A word, a negative number and the empty string are all read as 0. *)
Lemma input_clamping_witness :
  coerce "abc" = 0 /\ coerce "-5" = 0
  /\ rawLayout "8.5" "11" "17" "22" "abc" "-5" "" "0.5"
     = rawLayout "8.5" "11" "17" "22" "0" "0" "0" "0.5".
Proof.
  pose proof input_clamping as (_ & Hneg & _ & _ & Hsame).
  split; [ apply Hneg; left; reflexivity | ].
  split; [ apply Hneg; right; reflexivity | ].
  apply Hsame; reflexivity.
Defined.

(** C10.  For a valid request with piece [w] by [h], the request with
    piece [h] by [w] is valid too; the rotated candidate of the one has the
    columns, rows and total of the normal candidate of the other, both
    ways. *)
Theorem piece_swap :
  forall w h sw sh lm gt tl gr,
    valid (rawLayout w h sw sh lm gt tl gr) ->
    valid (rawLayout h w sw sh lm gt tl gr)
    /\ candidates_exchanged (rawLayout w h sw sh lm gt tl gr)
                            (rawLayout h w sw sh lm gt tl gr).
Proof.
  intros w h sw sh lm gt tl gr. unfold candidates_exchanged.
  name_inputs w h sw sh lm gt tl gr.
  destruct (CW <=? 0), (CH <=? 0), (SW <=? 0), (SH <=? 0);
    simpl_result; intros Hv; try discriminate.
  destruct ((G_calc + T_calc >=? SH) || (2 * LM >=? SW));
    simpl_result; try discriminate.
  split; [ reflexivity | ].
  do 4 eexists. simpl_result. repeat split.
Qed.

Lemma piece_swap_witness :
  valid (rawLayout "8.5" "11.0" "17.0" "22.0" "0.375" "0.125" "0.375" "0.5")
  /\ valid (rawLayout "11.0" "8.5" "17.0" "22.0" "0.375" "0.125" "0.375" "0.5")
  /\ candidates_exchanged
       (rawLayout "8.5" "11.0" "17.0" "22.0" "0.375" "0.125" "0.375" "0.5")
       (rawLayout "11.0" "8.5" "17.0" "22.0" "0.375" "0.125" "0.375" "0.5").
Proof.
  split; [ reflexivity | apply piece_swap; reflexivity ].
Defined.

(** C6.  An exact fit that is counted one short.  The piece length
    [P = 0.4], the gutter [G = 0.8] and the usable length [L = 6.4] are
    numbers with [G = 2 * P] and [L = 16 * P], hence [L = 6 * P + 5 * G],
    exactly; yet the fit is 5, not 6.  [L + G] rounds down to 7.2 and
    [P + G] rounds up to 1.2000000000000002; their quotient is the number
    just below 6, and adding [Number.EPSILON], a quarter of the gap
    between numbers there, rounds back to it. *)
Theorem exact_fit_undercount :
  let P := JS.parseFloat "0.4" in
  let G := JS.parseFloat "0.8" in
  let L := JS.parseFloat "6.4" in
  ((JS.to_Q G == 2 * JS.to_Q P)%Q /\ (JS.to_Q L == 16 * JS.to_Q P)%Q)
  /\ (JS.to_Q L == 6 * JS.to_Q P + (6 - 1) * JS.to_Q G)%Q
  /\ (L + G) / (P + G) = JS.parseFloat "5.999999999999999"
  /\ (L + G) / (P + G) + JS.EPSILON = JS.parseFloat "5.999999999999999"
  /\ calculateFit L P G = JS.of_Z 5
  /\ option_map fitW
       (layoutA (rawLayout "0.4" "1" "6.4" "10" "0" "0.8" "0" "0"))
     = Some (JS.of_Z 5).
Proof. vm_compute. repeat split. Qed.

(** C7.  A larger gutter that gives more rows.  With a sheet 8.5 high,
    clearances 3.9 and 3.6 and a piece 1 high, the usable height is the
    number 0.9999999999999996; a gutter of 0.5 gives 0 rows and a gutter
    of 0.75 gives 1 row, all other inputs being the same. *)
Theorem gutter_increases_rows :
  let r1 := rawLayout "1" "1" "8.5" "8.5" "0" "0.5" "3.9" "3.6" in
  let r2 := rawLayout "1" "1" "8.5" "8.5" "0" "0.75" "3.9" "3.6" in
  (coerce "0.5" <? coerce "0.75") = true
  /\ valid r1 /\ valid r2
  /\ effectiveH (coerce "8.5") (coerce "3.9") (coerce "3.6")
     = JS.parseFloat "0.9999999999999996"
  /\ option_map fitH (layoutA r1) = Some 0
  /\ option_map fitH (layoutA r2) = Some (JS.of_Z 1)
  /\ option_map fitH (layoutB r1) = Some 0
  /\ option_map fitH (layoutB r2) = Some (JS.of_Z 1).
Proof. vm_compute. repeat split. Qed.

(** C9.  Exchanging the two clearances changes the result.  Sheet 10
    by 10, piece 2 by 1, no margin and no gutter, clearances 0.2 and 1.8:
    both orders are valid and the sum of the clearances is the same
    number, but the usable height is [(10 - 0.2) - 1.8 = 8] in one order
    and [(10 - 1.8) - 0.2 = 7.999999999999999] in the other.  With the
    first the candidates hold 5 by 8 and 10 by 4 pieces and the piece as
    given is chosen; with the second the piece as given gets 7 rows, 35
    pieces, and the turned piece is chosen.  On the exact values of the
    same numbers, where the order of the subtractions does not matter, the
    formula of [calculateFit] gives 8 rows. *)
Theorem clearance_swap_loses_a_row :
  let r := rawLayout "2" "1" "10" "10" "0" "0" "0.2" "1.8" in
  let r' := rawLayout "2" "1" "10" "10" "0" "0" "1.8" "0.2" in
  (valid r /\ valid r')
  /\ coerce "0.2" + coerce "1.8" = coerce "1.8" + coerce "0.2"
  /\ effectiveH (coerce "10") (coerce "0.2") (coerce "1.8") = JS.parseFloat "8"
  /\ effectiveH (coerce "10") (coerce "1.8") (coerce "0.2")
     = JS.parseFloat "7.999999999999999"
  /\ Qfloor ((JS.to_Q (coerce "10") - JS.to_Q (coerce "1.8")
              - JS.to_Q (coerce "0.2") + JS.to_Q (coerce "0"))
             / (JS.to_Q (coerce "1") + JS.to_Q (coerce "0"))
             + JS.to_Q JS.EPSILON) = 8%Z
  /\ option_map counts (layoutA r) = Some (JS.of_Z 5, JS.of_Z 8, JS.of_Z 40)
  /\ option_map counts (layoutA r') = Some (JS.of_Z 5, JS.of_Z 7, JS.of_Z 35)
  /\ option_map counts (layoutB r) = Some (JS.of_Z 10, JS.of_Z 4, JS.of_Z 40)
  /\ option_map counts (layoutB r') = Some (JS.of_Z 10, JS.of_Z 4, JS.of_Z 40)
  /\ optimalKey r = Some A /\ optimalKey r' = Some B
  /\ ~ swap_invariant r r'.
Proof.
  cbv zeta.
  repeat match goal with |- _ /\ _ => split end;
    try (vm_compute; reflexivity).
  unfold swap_invariant. intros (_ & _ & _ & H).
  vm_compute in H. discriminate.
Qed.

(** X13.  What exchanging the two clearances does keep, for every
    request: the error, the columns of both candidates, and the echoed
    sheet width, sheet height, lateral margin and gutter; the echoed
    clearances are exchanged.  The margin check adds the clearances, and
    the columns do not depend on them. *)
Theorem clearance_swap_keeps :
  forall cw ch sw sh lm gt tl gr,
    let r := rawLayout cw ch sw sh lm gt tl gr in
    let r' := rawLayout cw ch sw sh lm gt gr tl in
    error r = error r'
    /\ option_map fitW (layoutA r) = option_map fitW (layoutA r')
    /\ option_map fitW (layoutB r) = option_map fitW (layoutB r')
    /\ sheetW r = sheetW r' /\ sheetH r = sheetH r'
    /\ lateralMargin r = lateralMargin r' /\ gutter r = gutter r'
    /\ tail r = grip r' /\ grip r = tail r'.
Proof.
  intros cw ch sw sh lm gt tl gr. cbv zeta.
  name_inputs cw ch sw sh lm gt tl gr.
  rewrite (add_comm T_calc G_calc).
  split_validation; simpl_result; repeat split.
Qed.

(** ** The handlers *)

Lemma rawLayout_shaped (i : App.Inputs) : shaped (App.rawLayoutOf i).
Proof.
  destruct i as [cw ch sw sh lm gt tl gr].
  unfold shaped, App.rawLayoutOf, App.cutWidth, App.cutHeight,
    App.sheetWidth, App.sheetHeight, App.lateralMargin, App.gutter,
    App.tail, App.grip.
  name_inputs cw ch sw sh lm gt tl gr.
  split_validation; simpl_result.
  - left. repeat split.
  - left. repeat split.
  - right. split; [ reflexivity | ].
    eexists; eexists. simpl_result. repeat split.
Qed.

(** The order of numbers is antisymmetric. *)
Lemma SFcompare_antisym (x y : JS.number) :
  SFcompare y x = option_map CompOpp (SFcompare x y).
Proof.
  destruct x as [sx | sx | | sx mx ex], y as [sy | sy | | sy my ey];
    try reflexivity; try (destruct sx; reflexivity);
    try (destruct sy; reflexivity);
    try (destruct sx, sy; reflexivity).
  cbn [SFcompare option_map]. f_equal.
  destruct sx, sy; try reflexivity;
    rewrite (Z.compare_antisym ex ey);
    destruct (Z.compare ex ey); cbn [CompOpp]; try reflexivity.
  - rewrite (Pos.compare_cont_antisym mx my Eq). reflexivity.
  - rewrite (Pos.compare_cont_antisym mx my Eq). reflexivity.
Qed.

Lemma SFcompare_not_nan (x y : JS.number) :
  JS.isNaN x = false -> JS.isNaN y = false -> SFcompare x y <> None.
Proof.
  destruct x as [sx | sx | | sx mx ex], y as [sy | sy | | sy my ey];
    intros Hx Hy; try discriminate; cbn; discriminate.
Qed.

(** Two numbers that are not NaN compare one way or the other. *)
Lemma geb_total (x y : JS.number) :
  JS.isNaN x = false -> JS.isNaN y = false ->
  (x >=? y) = false -> (y >=? x) = true.
Proof.
  intros Hx Hy. pose proof (SFcompare_not_nan x y Hx Hy) as Hc.
  unfold JS.geb. rewrite (SFcompare_antisym x y).
  destruct (SFcompare x y) as [[ | | ] | ]; cbn; congruence.
Qed.

Lemma geb_refl (x : JS.number) : JS.isNaN x = false -> (x >=? x) = true.
Proof.
  intros Hx. destruct (x >=? x) eqn:E; [ reflexivity | ].
  pose proof (geb_total x x Hx Hx E). congruence.
Qed.

(** X1.  Calculate on a valid request displays the candidate named by
    the optimal key, with the sheet values of the request; unless a total
    is NaN, the displayed total is [>=] the total of either candidate. *)
Theorem calculate_displays_best (s : App.State) :
  valid (App.rawLayoutOf (App.inputs s)) ->
  displays_best (App.rawLayoutOf (App.inputs s)) (App.handleCalculate s).
Proof.
  unfold valid, displays_best, App.handleCalculate.
  destruct (rawLayout_shaped (App.inputs s))
    as [(He & _) | (He & la & lb & Ha & Hb & _ & _ & _ & _ & Hk)];
    intros Hv; [ rewrite Hv in He; discriminate | ].
  cbv zeta. rewrite He, Hk, Ha, Hb. cbn [truthy_error App.displayLayout].
  destruct (total la >=? total lb) eqn:Ege; cbn [is_A layout_at].
  - exists la, lb. eexists. exists (total la).
    rewrite Ha. repeat split; try reflexivity.
    + apply geb_refl; assumption.
    + assumption.
  - exists la, lb. eexists. exists (total lb).
    rewrite Hb. repeat split; try reflexivity.
    + apply geb_total; assumption.
    + apply geb_refl; assumption.
Qed.

Lemma calculate_displays_best_witness :
  valid (App.rawLayoutOf (App.inputs App.initial))
  /\ displays_best (App.rawLayoutOf (App.inputs App.initial))
                   (App.handleCalculate App.initial).
Proof.
  split; [ reflexivity | apply calculate_displays_best; reflexivity ].
Defined.

(** X2.  Calculate on a request that fails validation displays the
    error with [total], [fitW] and [fitH] 0 and no orientation; the error
    box is shown and the sketch is not, and none of Calculate, Invert and
    Revert can be pressed until an input is edited. *)
Theorem calculate_reports_error (s : App.State) :
  ~ valid (App.rawLayoutOf (App.inputs s)) ->
  reports_error (App.rawLayoutOf (App.inputs s)) (App.handleCalculate s).
Proof.
  unfold valid, reports_error, App.handleCalculate.
  destruct (rawLayout_shaped (App.inputs s))
    as [(He & Ha & Hb & Hk) | (He & _)];
    intros Hv; [ | contradiction ].
  cbv zeta. rewrite He. eexists. split; [ reflexivity | ].
  unfold App.showsError, App.showsSketch, App.enabled.
  cbn [App.displayLayout App.isDirty App.currentLayoutKey spread_error
       DL.error DL.total DL.fitW DL.fitH DL.rotated DL.cutW DL.cutH
       total_positive].
  rewrite He. repeat split.
Qed.

Lemma calculate_reports_error_witness :
  let s := App.onChange App.CutWidth "0" App.initial in
  ~ valid (App.rawLayoutOf (App.inputs s))
  /\ reports_error (App.rawLayoutOf (App.inputs s)) (App.handleCalculate s).
Proof.
  cbv zeta.
  assert (H : ~ valid (App.rawLayoutOf
                         (App.inputs (App.onChange App.CutWidth "0" App.initial)))).
  { vm_compute. discriminate. }
  split; [ exact H | apply calculate_reports_error; exact H ].
Defined.

(** X3.  After Calculate on a valid request, Invert followed by Revert,
    and Invert pressed twice, both give back exactly the state Calculate
    produced. *)
Theorem invert_round_trip (s : App.State) :
  valid (App.rawLayoutOf (App.inputs s)) ->
  App.handleRevert (App.handleInvert (App.handleCalculate s))
  = App.handleCalculate s
  /\ App.handleInvert (App.handleInvert (App.handleCalculate s))
     = App.handleCalculate s.
Proof.
  unfold valid, App.handleRevert, App.handleInvert, App.handleCalculate.
  destruct (rawLayout_shaped (App.inputs s))
    as [(He & _) | (He & la & lb & Ha & Hb & _ & _ & _ & _ & Hk)];
    intros Hv; [ rewrite Hv in He; discriminate | ].
  cbv zeta. rewrite He. cbn [truthy_error].
  cbn [App.displayLayout App.inputs App.currentLayoutKey App.isDirty
       App.is_optimal].
  rewrite Hk.
  destruct (total la >=? total lb); cbn [is_A layout_at]; split; reflexivity.
Qed.

Lemma invert_round_trip_witness :
  App.handleRevert (App.handleInvert (App.handleCalculate App.initial))
  = App.handleCalculate App.initial
  /\ App.handleInvert (App.handleInvert (App.handleCalculate App.initial))
     = App.handleCalculate App.initial.
Proof. apply invert_round_trip. reflexivity. Defined.

(** X4.  After Calculate on a valid request, Invert displays the other
    orientation: the rotation flag is negated, the piece's width and
    height are exchanged, the sheet values stay, the key becomes
    [inverted] and the dirty flag stays off; unless a total is NaN the
    total on display after Invert does not exceed the one before. *)
Theorem invert_shows_other_orientation (s : App.State) :
  valid (App.rawLayoutOf (App.inputs s)) ->
  exists d d',
    App.displayLayout (App.handleCalculate s) = Some d
    /\ App.displayLayout (App.handleInvert (App.handleCalculate s)) = Some d'
    /\ other_orientation d d'
    /\ App.currentLayoutKey (App.handleInvert (App.handleCalculate s))
       = App.inverted
    /\ App.isDirty (App.handleInvert (App.handleCalculate s)) = false.
Proof.
  unfold valid, other_orientation, App.handleInvert, App.handleCalculate.
  destruct (rawLayout_shaped (App.inputs s))
    as [(He & _) | (He & la & lb & Ha & Hb & Hra & Hrb & Hw & Hh & Hk)];
    intros Hv; [ rewrite Hv in He; discriminate | ].
  cbv zeta. rewrite He. cbn [truthy_error].
  cbn [App.displayLayout App.inputs App.currentLayoutKey App.isDirty
       App.is_optimal].
  rewrite Hk.
  destruct (total la >=? total lb) eqn:Ege; cbn [is_A layout_at];
    rewrite Ha, Hb; eexists; eexists;
    (split; [ reflexivity | split; [ reflexivity | ] ]);
    cbn [spread_layout option_map DL.rotated DL.cutW DL.cutH DL.sheetW
         DL.sheetH DL.grip DL.tail DL.lateralMargin DL.gutter DL.total];
    rewrite Hra, Hrb, Hw, Hh.
  - repeat split; try reflexivity.
    + eexists. split; reflexivity.
    + intros t t' [= <-] [= <-] _ _. exact Ege.
  - repeat split; try reflexivity.
    + eexists. split; reflexivity.
    + intros t t' [= <-] [= <-] Ht Ht'. apply geb_total; assumption.
Qed.

Lemma invert_shows_other_orientation_witness :
  exists d d',
    App.displayLayout (App.handleCalculate App.initial) = Some d
    /\ App.displayLayout (App.handleInvert (App.handleCalculate App.initial))
       = Some d'
    /\ other_orientation d d'
    /\ App.currentLayoutKey (App.handleInvert (App.handleCalculate App.initial))
       = App.inverted
    /\ App.isDirty (App.handleInvert (App.handleCalculate App.initial)) = false.
Proof. apply invert_shows_other_orientation. reflexivity. Defined.

(** X5.  Invert pressed after an edit, without Calculate in between,
    does not show the other orientation of what was on display: it
    shows the alternate candidate of the edited inputs, the same display
    and key as Calculate then Invert on the edited inputs give.  When the
    edit changed the field, the dirty flag stays on all the same. *)
Theorem invert_after_edit (s : App.State) (f : App.Field) (v : string) :
  let stale := App.handleInvert (App.onChange f v (App.handleCalculate s)) in
  let fresh :=
    App.handleInvert (App.handleCalculate (App.onChange f v s)) in
  App.displayLayout stale = App.displayLayout fresh
  /\ App.currentLayoutKey stale = App.currentLayoutKey fresh
  /\ App.inputs stale = App.inputs fresh
  /\ App.isDirty fresh = false
  /\ App.isDirty stale = negb (String.eqb (App.get f (App.inputs s)) v).
Proof.
  cbv zeta. unfold App.onChange.
  assert (Hin : App.inputs (App.handleCalculate s) = App.inputs s).
  { unfold App.handleCalculate. cbv zeta.
    destruct (truthy_error _); reflexivity. }
  rewrite Hin.
  destruct (String.eqb (App.get f (App.inputs s)) v) eqn:E.
  - repeat split; unfold App.handleInvert, App.handleCalculate; cbv zeta;
      destruct (truthy_error _); reflexivity.
  - repeat split; unfold App.handleInvert, App.handleCalculate; cbv zeta;
      cbn [App.inputs App.displayLayout App.currentLayoutKey App.isDirty];
      destruct (truthy_error (error (App.rawLayoutOf (App.inputs s))));
      cbn [App.inputs App.displayLayout App.currentLayoutKey App.isDirty];
      destruct (truthy_error
                  (error (App.rawLayoutOf (App.set f v (App.inputs s)))));
      reflexivity.
Qed.

(** Calculate looks at the inputs only. *)
Lemma handleCalculate_inputs (s s' : App.State) :
  App.inputs s = App.inputs s' ->
  App.handleCalculate s = App.handleCalculate s'.
Proof. unfold App.handleCalculate. intros ->. reflexivity. Qed.

Lemma handleInvert_inputs (s : App.State) :
  App.inputs (App.handleInvert s) = App.inputs s.
Proof.
  unfold App.handleInvert. cbv zeta.
  destruct (App.displayLayout s); reflexivity.
Qed.

Lemma handleRevert_inputs (s : App.State) :
  App.inputs (App.handleRevert s) = App.inputs s.
Proof.
  unfold App.handleRevert. cbv zeta.
  destruct (App.displayLayout s); [ | reflexivity ].
  destruct (App.is_optimal _); reflexivity.
Qed.

(** A display with a positive total was not made from an error. *)
Lemma positive_total_valid (rl : Result) (k : option Key) :
  shaped rl ->
  total_positive (spread_layout (layout_at rl k) rl) = true ->
  exists la lb,
    error rl = None /\ layoutA rl = Some la /\ layoutB rl = Some lb
    /\ optimalKey rl = Some (if total la >=? total lb then A else B).
Proof.
  intros [(He & Ha & Hb & Hk) | (He & la & lb & Ha & Hb & _ & _ & _ & _ & Hk)].
  - unfold total_positive. cbn [spread_layout DL.total].
    destruct k as [[ | ] | ]; cbn [layout_at]; rewrite ?Ha, ?Hb;
      discriminate.
  - intros _. exists la, lb. repeat split; assumption.
Qed.

(** X6.  In every state the user can reach, a dirty flag that is off
    means the display agrees with the inputs: it is the display
    Calculate produces for them, followed by Invert when the key is
    [inverted]. *)
Theorem clean_display_is_current (s : App.State) :
  App.reachable s -> App.isDirty s = false -> App.in_sync s.
Proof.
  induction 1 as [ | s e Hr IH Hen ]; [ discriminate | ].
  destruct e as [f v | | | | ]; cbn [App.handle App.enabled] in *.
  - (* an edit *)
    unfold App.onChange.
    destruct (String.eqb (App.get f (App.inputs s)) v);
      [ exact IH | discriminate ].
  - (* Calculate *)
    intros _. unfold App.in_sync.
    replace (App.currentLayoutKey (App.handleCalculate s)) with App.optimal
      by (unfold App.handleCalculate; cbv zeta;
          destruct (truthy_error _); reflexivity).
    f_equal. apply handleCalculate_inputs.
    unfold App.handleCalculate; cbv zeta;
      destruct (truthy_error _); reflexivity.
  - (* Invert *)
    unfold App.showsSketch in Hen.
    destruct s as [i [d | ] dirty key]; cbn in Hen; [ | discriminate ].
    unfold App.handleInvert at 1. cbn [App.isDirty App.displayLayout].
    intros Hd. specialize (IH Hd). unfold App.in_sync in *.
    cbn [App.currentLayoutKey App.displayLayout App.is_optimal App.inputs
         App.isDirty] in *.
    unfold App.handleInvert, App.handleCalculate in *. cbv zeta in *.
    cbn [App.inputs App.displayLayout App.currentLayoutKey App.is_optimal
         App.isDirty] in *.
    pose proof (rawLayout_shaped i) as Hs.
    destruct key; cbn [App.is_optimal] in *.
    + destruct Hs as [(He & _) |
                      (He & la & lb & Ha & Hb & _ & _ & _ & _ & Hk)].
      * rewrite He in IH. cbn [App.displayLayout] in IH.
        injection IH as ->. discriminate.
      * rewrite He. cbn [truthy_error App.displayLayout App.currentLayoutKey
                         App.is_optimal]. reflexivity.
    + assert (Hv : exists la lb,
                 error (App.rawLayoutOf i) = None
                 /\ layoutA (App.rawLayoutOf i) = Some la
                 /\ layoutB (App.rawLayoutOf i) = Some lb
                 /\ optimalKey (App.rawLayoutOf i)
                    = Some (if total la >=? total lb then A else B)).
      { destruct (truthy_error (error (App.rawLayoutOf i)));
          cbn [App.displayLayout App.currentLayoutKey App.is_optimal] in IH;
          injection IH as ->;
          exact (positive_total_valid _ _ Hs Hen). }
      destruct Hv as (la & lb & He & Ha & Hb & Hk).
      rewrite He, Hk. cbn [truthy_error App.displayLayout].
      destruct (total la >=? total lb); reflexivity.
  - (* Revert *)
    apply andb_true_iff in Hen. destruct Hen as [Hen Hkey].
    unfold App.showsSketch in Hen.
    destruct s as [i [d | ] dirty key]; cbn in Hen; [ | discriminate ].
    destruct key; [ discriminate | ].
    unfold App.handleRevert at 1. cbn [App.isDirty App.displayLayout
                                       App.currentLayoutKey App.is_optimal].
    intros Hd. specialize (IH Hd). unfold App.in_sync in *.
    cbn [App.currentLayoutKey App.displayLayout App.is_optimal App.inputs
         App.isDirty] in *.
    unfold App.handleRevert, App.handleInvert, App.handleCalculate in *.
    cbv zeta in *.
    cbn [App.inputs App.displayLayout App.currentLayoutKey App.is_optimal
         App.isDirty] in *.
    pose proof (rawLayout_shaped i) as Hs.
    assert (Hv : exists la lb,
               error (App.rawLayoutOf i) = None
               /\ layoutA (App.rawLayoutOf i) = Some la
               /\ layoutB (App.rawLayoutOf i) = Some lb
               /\ optimalKey (App.rawLayoutOf i)
                  = Some (if total la >=? total lb then A else B)).
    { destruct (truthy_error (error (App.rawLayoutOf i)));
        cbn [App.displayLayout App.currentLayoutKey App.is_optimal] in IH;
        injection IH as ->;
        exact (positive_total_valid _ _ Hs Hen). }
    destruct Hv as (la & lb & He & Ha & Hb & Hk).
    rewrite He. cbn [truthy_error App.displayLayout]. reflexivity.
  - (* Print *)
    exact IH.
Qed.

Lemma clean_display_is_current_witness :
  App.in_sync (App.handleInvert (App.handleCalculate App.initial)).
Proof.
  apply clean_display_is_current.
  - apply (App.reachable_handle _ App.Invert);
      [ apply (App.reachable_handle _ App.Calculate);
        [ apply App.reachable_initial | reflexivity ]
      | reflexivity ].
  - reflexivity.
Defined.

(** A display made from an error has no positive total. *)
Lemma error_total_not_positive (rl : Result) (l : option Layout) :
  shaped rl -> l = layoutA rl \/ l = layoutB rl \/ l = None ->
  truthy_error (error rl) = true ->
  total_positive (spread_layout l rl) = false.
Proof.
  intros [(_ & Ha & Hb & _) | (He & _)] Hl Ht.
  - rewrite Ha, Hb in Hl. destruct Hl as [-> | [-> | ->]]; reflexivity.
  - rewrite He in Ht. discriminate.
Qed.

(** X7.  In every state the user can reach: as long as nothing is on
    display the dirty flag is on and the key is [optimal], so the key
    [inverted] comes with a display; and an error box is never shown
    together with the sketch and the orientation buttons. *)
Theorem reachable_display_coherent (s : App.State) :
  App.reachable s -> display_coherent s.
Proof.
  unfold display_coherent, App.showsError, App.showsSketch.
  induction 1 as [ | s e Hr IH Hen ].
  - split; [ intros _; split; reflexivity | discriminate ].
  - destruct e as [f v | | | | ]; cbn [App.handle App.enabled] in *.
    + unfold App.onChange.
      destruct (String.eqb (App.get f (App.inputs s)) v); [ exact IH | ].
      cbn [App.displayLayout App.isDirty App.currentLayoutKey].
      split; [ | exact (proj2 IH) ].
      intros Hn. split; [ reflexivity | exact (proj2 (proj1 IH Hn)) ].
    + unfold App.handleCalculate. cbv zeta.
      destruct (truthy_error (error (App.rawLayoutOf (App.inputs s)))) eqn:Et;
        cbn [App.displayLayout App.isDirty App.currentLayoutKey];
        (split; [ discriminate | ]).
      * reflexivity.
      * intros Herr. apply error_total_not_positive;
          [ apply rawLayout_shaped
          | destruct (is_A _); auto
          | exact Herr ].
    + unfold App.handleInvert. cbv zeta.
      destruct (App.displayLayout s) as [d | ] eqn:Ed;
        [ | rewrite Ed; exact IH ].
      cbn [App.displayLayout App.isDirty App.currentLayoutKey].
      split; [ discriminate | ].
      intros Herr. apply error_total_not_positive;
        [ apply rawLayout_shaped | | exact Herr ].
      destruct (App.is_optimal _); [ destruct (is_A _); cbn; auto | ].
      destruct (optimalKey _) as [[ | ] | ]; cbn; auto.
    + unfold App.handleRevert. cbv zeta.
      destruct (App.displayLayout s) as [d | ] eqn:Ed;
        [ | rewrite Ed; exact IH ].
      destruct (App.is_optimal (App.currentLayoutKey s)) eqn:Ek.
      * rewrite Ed. exact IH.
      * cbn [App.displayLayout App.isDirty App.currentLayoutKey].
        split; [ discriminate | ].
        intros Herr. apply error_total_not_positive;
          [ apply rawLayout_shaped
          | destruct (is_A _); auto
          | exact Herr ].
    + exact IH.
Qed.

Lemma reachable_display_coherent_witness :
  display_coherent
    (App.handleCalculate (App.onChange App.SheetHeight "0.5" App.initial)).
Proof.
  apply reachable_display_coherent.
  apply (App.reachable_handle _ App.Calculate);
    [ apply (App.reachable_handle _ (App.Change App.SheetHeight "0.5"));
      [ apply App.reachable_initial | reflexivity ]
    | reflexivity ].
Defined.

(** X8.  When a valid request's optimal candidate holds a piece and the
    other candidate's total is not positive, Calculate then Invert leads
    to a state with the key [inverted] where the orientation buttons are
    gone and Calculate is disabled: whatever the user can still do
    leaves the state as it is, except an edit that changes a field. *)
Theorem invert_dead_end (s : App.State) (t t' : JS.number) :
  let rl := App.rawLayoutOf (App.inputs s) in
  let s' := App.handleInvert (App.handleCalculate s) in
  valid rl ->
  option_map total (layout_at rl (optimalKey rl)) = Some t ->
  option_map total (alternate rl) = Some t' ->
  (0 <? t) = true -> (0 <? t') = false ->
  App.enabled App.Invert (App.handleCalculate s) = true
  /\ App.currentLayoutKey s' = App.inverted
  /\ App.enabled App.Calculate s' = false
  /\ App.enabled App.Invert s' = false
  /\ App.enabled App.Revert s' = false
  /\ (forall e, App.enabled e s' = true -> App.handle e s' <> s' ->
        exists f v, e = App.Change f v /\ App.get f (App.inputs s') <> v).
Proof.
  cbv zeta. unfold valid, alternate. intros Hv Ht Ht' Hp Hn.
  assert (Hcalc : App.handleCalculate s
                  = App.mkState (App.inputs s)
                      (Some (spread_layout
                               (layout_at (App.rawLayoutOf (App.inputs s))
                                  (optimalKey (App.rawLayoutOf (App.inputs s))))
                               (App.rawLayoutOf (App.inputs s))))
                      false App.optimal).
  { unfold App.handleCalculate. cbv zeta. rewrite Hv. cbn [truthy_error].
    destruct (rawLayout_shaped (App.inputs s))
      as [(He & _) | (_ & la & lb & _ & _ & _ & _ & _ & _ & Hk)];
      [ rewrite Hv in He; discriminate | ].
    rewrite Hk. destruct (total la >=? total lb); reflexivity. }
  rewrite Hcalc.
  unfold App.handleInvert. cbv zeta.
  cbn [App.displayLayout App.inputs App.currentLayoutKey App.isDirty
       App.is_optimal App.enabled App.showsSketch].
  assert (Hs1 : total_positive
                  (spread_layout
                     (layout_at (App.rawLayoutOf (App.inputs s))
                        (optimalKey (App.rawLayoutOf (App.inputs s))))
                     (App.rawLayoutOf (App.inputs s))) = true).
  { unfold total_positive. cbn [spread_layout DL.total]. rewrite Ht.
    exact Hp. }
  assert (Hs2 : total_positive
                  (spread_layout
                     (layout_at (App.rawLayoutOf (App.inputs s))
                        (if is_A (optimalKey (App.rawLayoutOf (App.inputs s)))
                         then Some B else Some A))
                     (App.rawLayoutOf (App.inputs s))) = false).
  { unfold total_positive. cbn [spread_layout DL.total]. rewrite Ht'.
    exact Hn. }
  rewrite Hs1, Hs2. repeat split.
  intros e He Hch. destruct e as [f v | | | | ];
    cbn [App.enabled App.handle App.showsSketch App.displayLayout
         App.isDirty] in *;
    try discriminate; try (rewrite Hs2 in He; discriminate).
  - exists f, v. split; [ reflexivity | ].
    intros Heq. apply Hch. unfold App.onChange.
    cbn [App.inputs] in *. rewrite Heq, String.eqb_refl. reflexivity.
  - exfalso. apply Hch. reflexivity.
Qed.

(** A piece of 8.5 by 11 on a bare sheet of 9 by 12 fits once as given
    and not at all when turned. *)
Lemma invert_dead_end_witness :
  let s := App.mkState
             (App.mkInputs "8.5" "11" "9" "12" "0" "0" "0" "0")
             None true App.optimal in
  let s' := App.handleInvert (App.handleCalculate s) in
  App.enabled App.Invert (App.handleCalculate s) = true
  /\ App.currentLayoutKey s' = App.inverted
  /\ App.enabled App.Calculate s' = false
  /\ App.enabled App.Invert s' = false
  /\ App.enabled App.Revert s' = false
  /\ (forall e, App.enabled e s' = true -> App.handle e s' <> s' ->
        exists f v, e = App.Change f v /\ App.get f (App.inputs s') <> v).
Proof.
  cbv zeta.
  apply (invert_dead_end
           (App.mkState (App.mkInputs "8.5" "11" "9" "12" "0" "0" "0" "0")
                        None true App.optimal)
           (JS.of_Z 1) 0); reflexivity.
Defined.

(** ** The sketch *)

Lemma interval_S a k : interval a (S k) = a :: interval (a + 1) k.
Proof.
  unfold interval. cbn [seq map]. f_equal; [ lia | ].
  rewrite <- seq_shift, map_map. apply map_ext. intros t. lia.
Qed.

Section LoopFacts.

Variables startX startY cutDrawW cutDrawH gutterDraw : JS.number.
Variables n m : Z.
Hypothesis n_range : (0 <= n < 2 ^ 53)%Z.
Hypothesis m_range : (0 <= m < 2 ^ 53)%Z.

Let run_body := Canvas.body startX startY cutDrawW cutDrawH gutterDraw
                            (JS.of_Z n) (JS.of_Z m).
Let run_j := Canvas.for_j startX startY cutDrawW cutDrawH gutterDraw
                          (JS.of_Z n) (JS.of_Z m).
Let run_i := Canvas.for_i startX startY cutDrawW cutDrawH gutterDraw
                          (JS.of_Z n) (JS.of_Z m).
Let cells := cell startX startY cutDrawW cutDrawH gutterDraw n m.
Let col := column startX startY cutDrawW cutDrawH gutterDraw n m.
Let whole := grid startX startY cutDrawW cutDrawH gutterDraw n m.

Lemma body_drawn i j ctx :
  (0 <= i < n)%Z -> (0 <= j < m)%Z -> piece_styles ctx ->
  let ctx' := run_body (JS.of_Z i) (JS.of_Z j) ctx in
  Canvas.drawn ctx' = Canvas.drawn ctx ++ cells (Canvas.fillStyle ctx) i j
  /\ piece_styles ctx'
  /\ Canvas.fillStyle ctx'
     = if ((j <? m - 1) || (i <? n - 1))%Z then Canvas.GUTTER_FILL
       else Canvas.fillStyle ctx.
Proof.
  intros Hi Hj [Hs Hw]. cbv zeta.
  unfold run_body, cells, Canvas.body, cell, piece_styles, X, Y.
  rewrite !sub_one by lia. rewrite !ltb_of_Z by lia.
  destruct (j <? m - 1)%Z, (i <? n - 1)%Z;
    cbn [Canvas.fillRect Canvas.strokeRect Canvas.emit Canvas.set_fillStyle
         Canvas.drawn Canvas.fillStyle Canvas.strokeStyle Canvas.lineWidth
         orb];
    rewrite Hs, Hw, <- ?app_assoc; repeat split.
Qed.

Lemma run_j_spec i :
  (0 <= i < n)%Z ->
  forall k j fuel ctx,
    (0 <= j)%Z -> (j + Z.of_nat k = m)%Z -> (k <= fuel)%nat ->
    piece_styles ctx ->
    ((j < m)%Z -> Canvas.fillStyle ctx = fill_of i j) ->
    ((0 < j)%Z -> (i < n - 1)%Z ->
     Canvas.fillStyle ctx = Canvas.GUTTER_FILL) ->
    exists ctx',
      run_j fuel (JS.of_Z i) (JS.of_Z j) ctx = Some ctx'
      /\ Canvas.drawn ctx' = Canvas.drawn ctx ++ col i (interval j k)
      /\ piece_styles ctx'
      /\ ((0 < m)%Z -> (i < n - 1)%Z ->
          Canvas.fillStyle ctx' = Canvas.GUTTER_FILL).
Proof.
  intros Hi. induction k as [ | k IH ]; intros j fuel ctx Hj Hk Hf Hs Hfill Hg.
  - exists ctx. assert (j = m) by lia. subst j.
    split; [ | split; [ | split ] ].
    + destruct fuel; unfold run_j; cbn [Canvas.for_j];
        rewrite ltb_of_Z, Z.ltb_irrefl by lia; reflexivity.
    + cbn. rewrite app_nil_r. reflexivity.
    + exact Hs.
    + intros Hm Hn. apply Hg; lia.
  - destruct fuel as [ | fuel ]; [ lia | ].
    unfold run_j. cbn [Canvas.for_j].
    rewrite ltb_of_Z by lia.
    replace (j <? m)%Z with true by (symmetry; apply Z.ltb_lt; lia).
    rewrite add_one by lia.
    destruct (body_drawn i j ctx) as (Hd & Hs' & Hf'); [ lia | lia | exact Hs | ].
    fold run_body. fold run_j.
    destruct (IH (j + 1)%Z fuel (run_body (JS.of_Z i) (JS.of_Z j) ctx))
      as (ctx' & Hrun & Hd' & Hs'' & Hg'); try lia; try exact Hs'.
    + intros Hlt. rewrite Hf'.
      replace (j <? m - 1)%Z with true by (symmetry; apply Z.ltb_lt; lia).
      unfold fill_of.
      replace (j + 1 =? 0)%Z with false by (symmetry; apply Z.eqb_neq; lia).
      rewrite andb_false_r. reflexivity.
    + intros _ Hn. rewrite Hf'.
      replace (i <? n - 1)%Z with true by (symmetry; apply Z.ltb_lt; lia).
      rewrite orb_true_r. reflexivity.
    + exists ctx'. split; [ exact Hrun | ]. split; [ | split; assumption ].
      rewrite Hd', Hd, interval_S, <- app_assoc. unfold col, column.
      cbn [flat_map]. rewrite Hfill by lia. reflexivity.
Qed.

Lemma run_i_spec budget :
  (Z.to_nat m <= budget)%nat ->
  forall k i fuel ctx,
    (0 <= i)%Z -> (i + Z.of_nat k = n)%Z -> (k <= fuel)%nat ->
    piece_styles ctx ->
    ((i < n)%Z -> (0 < m)%Z -> Canvas.fillStyle ctx = fill_of i 0) ->
    exists ctx',
      run_i budget fuel (JS.of_Z i) ctx = Some ctx'
      /\ Canvas.drawn ctx'
         = Canvas.drawn ctx
           ++ flat_map (fun i => col i (interval 0 (Z.to_nat m)))
                       (interval i k).
Proof.
  intros Hb. induction k as [ | k IH ]; intros i fuel ctx Hi Hk Hf Hs Hfill.
  - exists ctx. assert (i = n) by lia. subst i. split.
    + destruct fuel; unfold run_i; cbn [Canvas.for_i];
        rewrite ltb_of_Z, Z.ltb_irrefl by lia; reflexivity.
    + cbn. rewrite app_nil_r. reflexivity.
  - destruct fuel as [ | fuel ]; [ lia | ].
    unfold run_i. cbn [Canvas.for_i].
    rewrite ltb_of_Z by lia.
    replace (i <? n)%Z with true by (symmetry; apply Z.ltb_lt; lia).
    rewrite add_one by lia.
    fold run_j.
    destruct (run_j_spec i ltac:(lia) (Z.to_nat m) 0%Z budget ctx)
      as (ctx' & Hrun & Hd & Hs' & Hg); try lia; try exact Hs.
    + intros Hm. apply Hfill; lia.
    + change (JS.of_Z 0) with JS.zero in Hrun. rewrite Hrun. fold run_i.
      destruct (IH (i + 1)%Z fuel ctx') as (ctx'' & Hrun' & Hd');
        try lia; try exact Hs'.
      * intros Hlt Hm. rewrite Hg by lia. unfold fill_of.
        replace (i + 1 =? 0)%Z with false by (symmetry; apply Z.eqb_neq; lia).
        reflexivity.
      * exists ctx''. split; [ exact Hrun' | ].
        rewrite Hd', Hd, interval_S, <- app_assoc. reflexivity.
Qed.

End LoopFacts.

(** What the effect draws for whole fit counts. *)
Lemma effect_grid (layout : DL.t) (n m : Z) (fuel : nat) :
  drawable layout n m ->
  (Z.to_nat n <= fuel)%nat -> (Z.to_nat m <= fuel)%nat ->
  Canvas.effect fuel layout
  = Some (Canvas.drawn (Canvas.prologue layout)
          ++ sketch_grid layout n m
          ++ Canvas.drawn (Canvas.epilogue layout (Canvas.reset []))).
Proof.
  intros (Hn & Hm & Hw & Hh & Hz & He) Hfn Hfm.
  unfold Canvas.effect. rewrite Hz, He, Hw, Hh. cbn [orb Canvas.num].
  cbv zeta.
  destruct (run_i_spec
              (DL.lateralMargin layout * scaleFactor layout)
              (DL.tail layout * scaleFactor layout)
              (Canvas.num (DL.cutW layout) * scaleFactor layout)
              (Canvas.num (DL.cutH layout) * scaleFactor layout)
              (DL.gutter layout * scaleFactor layout)
              n m Hn Hm fuel Hfm (Z.to_nat n) 0%Z fuel
              (Canvas.prologue layout))
    as (ctx' & Hrun & Hd); try lia.
  - split; reflexivity.
  - intros _ _. reflexivity.
  - change (JS.of_Z 0) with JS.zero in Hrun. unfold scaleFactor in Hrun.
    rewrite Hrun. f_equal.
    unfold Canvas.epilogue. cbv zeta.
    cbn [Canvas.fillText Canvas.emit Canvas.drawn Canvas.set_textAlign
         Canvas.set_font Canvas.set_fillStyle Canvas.fillStyle Canvas.font
         Canvas.textAlign Canvas.reset].
    rewrite Hd, <- app_assoc. reflexivity.
Qed.

(** X9.  For a display with whole fit counts [n] and [m] below [2 ^ 53],
    a total that is not 0 and no error, the effect of [LayoutCanvas]
    finishes once [fuel] covers [n] and [m] passes, and what it draws is:
    the frame, bands and margins, then column by column for each of the
    [n] by [m] pieces the piece, the gutter below it (except in the last
    row) and the gutter to its right (except in the last column), then
    the label.  Only the first piece is filled with the colour set for
    the pieces; the fill set for the first gutter stays in force for every
    later piece. *)
Theorem sketch_drawn (layout : DL.t) (n m : Z) (fuel : nat) :
  drawable layout n m ->
  (Z.to_nat n <= fuel)%nat -> (Z.to_nat m <= fuel)%nat ->
  Canvas.effect fuel layout
  = Some (Canvas.drawn (Canvas.prologue layout)
          ++ sketch_grid layout n m
          ++ Canvas.drawn (Canvas.epilogue layout (Canvas.reset []))).
Proof.
  intros Hd Hfn Hfm. rewrite (effect_grid layout n m fuel Hd Hfn Hfm).
  reflexivity.
Qed.

Lemma sketch_drawn_witness :
  let rl := App.rawLayoutOf (App.inputs App.initial) in
  let layout := spread_layout (layoutB rl) rl in
  Canvas.effect 2 layout
  = Some (Canvas.drawn (Canvas.prologue layout)
          ++ sketch_grid layout 1 2
          ++ Canvas.drawn (Canvas.epilogue layout (Canvas.reset []))).
Proof.
  cbv zeta. apply (sketch_drawn _ 1 2).
  - repeat split; try reflexivity; lia.
  - cbn. lia.
  - cbn. lia.
Defined.

Lemma filter_flat_map {A B : Type} (f : B -> bool) (g : A -> list B)
  (l : list A) :
  filter f (flat_map g l) = flat_map (fun x => filter f (g x)) l.
Proof.
  induction l as [ | a l IH ]; [ reflexivity | ].
  cbn [flat_map]. rewrite filter_app, IH. reflexivity.
Qed.

Lemma flat_map_singleton {A B : Type} (g : A -> B) (l : list A) :
  flat_map (fun x => [g x]) l = map g l.
Proof. induction l as [ | a l IH ]; [ reflexivity | cbn; rewrite IH; reflexivity ]. Qed.

Lemma flat_map_nil {A B : Type} (g : A -> list B) (l : list A) :
  (forall x, In x l -> g x = []) -> flat_map g l = [].
Proof.
  induction l as [ | a l IH ]; intros H; [ reflexivity | ].
  cbn [flat_map]. rewrite (H a) by (left; reflexivity).
  apply IH. intros x Hx. apply H. right. exact Hx.
Qed.

Lemma length_flat_map_const {A B : Type} (g : A -> list B) (l : list A) k :
  (forall x, length (g x) = k) -> length (flat_map g l) = (length l * k)%nat.
Proof.
  intros H. induction l as [ | a l IH ]; [ reflexivity | ].
  cbn [flat_map length]. rewrite length_app, H, IH. lia.
Qed.

Lemma interval_length a k : length (interval a k) = k.
Proof. unfold interval. rewrite length_map, length_seq. reflexivity. Qed.

Lemma interval_In a k x : In x (interval a k) -> (a <= x)%Z.
Proof.
  unfold interval. rewrite in_map_iff. intros (t & <- & _). lia.
Qed.

Section CellFacts.

Variables startX startY cutDrawW cutDrawH gutterDraw : JS.number.
Variables n m : Z.

Lemma cell_outline fill i j :
  filter is_outline (cell startX startY cutDrawW cutDrawH gutterDraw n m fill i j)
  = [Canvas.StrokeRect Canvas.PIECE_STROKE (JS.of_Z 1)
       (X startX cutDrawW gutterDraw i) (Y startY cutDrawH gutterDraw j)
       cutDrawW cutDrawH].
Proof.
  unfold cell. destruct (j <? m - 1)%Z, (i <? n - 1)%Z; reflexivity.
Qed.

Lemma cell_piece_fill i j :
  filter is_piece_fill
    (cell startX startY cutDrawW cutDrawH gutterDraw n m (fill_of i j) i j)
  = if ((i =? 0) && (j =? 0))%Z
    then [Canvas.FillRect Canvas.PIECE_FILL
            (X startX cutDrawW gutterDraw i) (Y startY cutDrawH gutterDraw j)
            cutDrawW cutDrawH]
    else [].
Proof.
  unfold cell, fill_of.
  destruct ((i =? 0) && (j =? 0))%Z, (j <? m - 1)%Z, (i <? n - 1)%Z;
    reflexivity.
Qed.

Lemma grid_outlines :
  filter is_outline (grid startX startY cutDrawW cutDrawH gutterDraw n m)
  = flat_map
      (fun i =>
         map (fun j =>
                Canvas.StrokeRect Canvas.PIECE_STROKE (JS.of_Z 1)
                  (X startX cutDrawW gutterDraw i)
                  (Y startY cutDrawH gutterDraw j) cutDrawW cutDrawH)
             (interval 0 (Z.to_nat m)))
      (interval 0 (Z.to_nat n)).
Proof.
  unfold grid, column. rewrite filter_flat_map.
  apply flat_map_ext. intros i.
  rewrite filter_flat_map, <- flat_map_singleton.
  apply flat_map_ext. intros j. apply cell_outline.
Qed.

Lemma column_piece_fill_other i rows :
  (i <> 0)%Z ->
  filter is_piece_fill
    (column startX startY cutDrawW cutDrawH gutterDraw n m i rows) = [].
Proof.
  intros Hi. unfold column. rewrite filter_flat_map.
  apply flat_map_nil. intros j _. rewrite cell_piece_fill.
  replace (i =? 0)%Z with false by (symmetry; apply Z.eqb_neq; exact Hi).
  reflexivity.
Qed.

Lemma grid_piece_fill :
  filter is_piece_fill (grid startX startY cutDrawW cutDrawH gutterDraw n m)
  = if ((0 <? n) && (0 <? m))%Z
    then [Canvas.FillRect Canvas.PIECE_FILL
            (X startX cutDrawW gutterDraw 0) (Y startY cutDrawH gutterDraw 0)
            cutDrawW cutDrawH]
    else [].
Proof.
  unfold grid. rewrite filter_flat_map.
  destruct (Z.ltb_spec 0 n) as [Hn | Hn].
  - destruct (Z.to_nat n) as [ | kn ] eqn:En; [ lia | ].
    rewrite interval_S. cbn [flat_map].
    rewrite (flat_map_nil _ (interval (0 + 1) kn)).
    2:{ intros i Hi. apply column_piece_fill_other.
        apply interval_In in Hi. lia. }
    rewrite app_nil_r. unfold column. rewrite filter_flat_map.
    destruct (Z.ltb_spec 0 m) as [Hm | Hm]; cbn [andb].
    + destruct (Z.to_nat m) as [ | km ] eqn:Em; [ lia | ].
      rewrite interval_S. cbn [flat_map].
      rewrite (flat_map_nil _ (interval (0 + 1) km)).
      2:{ intros j Hj. rewrite cell_piece_fill.
          apply interval_In in Hj.
          replace (j =? 0)%Z with false by (symmetry; apply Z.eqb_neq; lia).
          rewrite andb_false_r. reflexivity. }
      rewrite app_nil_r. apply cell_piece_fill.
    + replace (Z.to_nat m) with O by lia. reflexivity.
  - replace (Z.to_nat n) with O by lia. reflexivity.
Qed.

End CellFacts.

(** The pieces outlined by the effect. *)
Lemma effect_outlines (layout : DL.t) (n m : Z) (fuel : nat) :
  drawable layout n m ->
  (Z.to_nat n <= fuel)%nat -> (Z.to_nat m <= fuel)%nat ->
  exists ops,
    Canvas.effect fuel layout = Some ops
    /\ filter is_outline ops = sketch_outlines layout n m
    /\ length (filter is_outline ops) = Z.to_nat (n * m).
Proof.
  intros Hd Hfn Hfm. eexists. split; [ apply effect_grid; eassumption | ].
  assert (Ho : filter is_outline
                 (Canvas.drawn (Canvas.prologue layout)
                  ++ sketch_grid layout n m
                  ++ Canvas.drawn (Canvas.epilogue layout (Canvas.reset [])))
               = sketch_outlines layout n m).
  { rewrite !filter_app. unfold sketch_grid. rewrite grid_outlines.
    change (filter is_outline (Canvas.drawn (Canvas.prologue layout)))
      with (@nil Canvas.Op).
    change (filter is_outline
              (Canvas.drawn (Canvas.epilogue layout (Canvas.reset []))))
      with (@nil Canvas.Op).
    rewrite app_nil_r. reflexivity. }
  split; [ exact Ho | ].
  rewrite Ho. unfold sketch_outlines.
  rewrite (length_flat_map_const _ _ (Z.to_nat m))
    by (intros i; rewrite length_map; apply interval_length).
  rewrite interval_length. destruct Hd as (Hn & Hm & _).
  rewrite Z2Nat.inj_mul by lia. reflexivity.
Qed.

(** X10.  Under the same conditions the sketch outlines exactly [n * m]
    pieces, at the places [X i], [Y j] in column order, and of all the
    rectangles it fills only one, the first piece, has the fill colour of
    the pieces (none when there is no piece). *)
Theorem sketch_pieces (layout : DL.t) (n m : Z) (fuel : nat) :
  drawable layout n m ->
  (Z.to_nat n <= fuel)%nat -> (Z.to_nat m <= fuel)%nat ->
  exists ops,
    Canvas.effect fuel layout = Some ops
    /\ filter is_outline ops = sketch_outlines layout n m
    /\ length (filter is_outline ops) = Z.to_nat (n * m)
    /\ length (filter is_piece_fill ops)
       = if ((0 <? n) && (0 <? m))%Z then 1%nat else 0%nat.
Proof.
  intros Hd Hfn Hfm.
  destruct (effect_outlines layout n m fuel Hd Hfn Hfm)
    as (ops & Hops & Ho & Hlen).
  exists ops. split; [ exact Hops | ]. split; [ exact Ho | ].
  split; [ exact Hlen | ].
  pose proof (effect_grid layout n m fuel Hd Hfn Hfm) as Hg.
  assert (E : ops
              = Canvas.drawn (Canvas.prologue layout)
                ++ sketch_grid layout n m
                ++ Canvas.drawn (Canvas.epilogue layout (Canvas.reset [])))
    by congruence.
  rewrite E.
  rewrite !filter_app. unfold sketch_grid. rewrite grid_piece_fill.
  change (filter is_piece_fill (Canvas.drawn (Canvas.prologue layout)))
    with (@nil Canvas.Op).
  change (filter is_piece_fill
            (Canvas.drawn (Canvas.epilogue layout (Canvas.reset []))))
    with (@nil Canvas.Op).
  rewrite app_nil_r. cbn [app].
  destruct ((0 <? n) && (0 <? m))%Z; reflexivity.
Qed.

Lemma sketch_pieces_witness :
  let rl := App.rawLayoutOf (App.inputs App.initial) in
  let layout := spread_layout (layoutB rl) rl in
  exists ops,
    Canvas.effect 2 layout = Some ops
    /\ filter is_outline ops = sketch_outlines layout 1 2
    /\ length (filter is_outline ops) = Z.to_nat (1 * 2)
    /\ length (filter is_piece_fill ops) = 1%nat.
Proof.
  cbv zeta. apply (sketch_pieces _ 1 2).
  - repeat split; try reflexivity; lia.
  - cbn. lia.
  - cbn. lia.
Defined.

(** The candidates of [rawLayout] carry the product of their fits. *)
Lemma rawLayout_totals (i : App.Inputs) (l : Layout) :
  layoutA (App.rawLayoutOf i) = Some l \/ layoutB (App.rawLayoutOf i) = Some l ->
  total l = fitW l * fitH l.
Proof.
  destruct i as [cw ch sw sh lm gt tl gr].
  unfold App.rawLayoutOf, App.cutWidth, App.cutHeight,
    App.sheetWidth, App.sheetHeight, App.lateralMargin, App.gutter,
    App.tail, App.grip.
  name_inputs cw ch sw sh lm gt tl gr.
  split_validation; simpl_result; intros [H | H]; try discriminate;
    injection H as <-; reflexivity.
Qed.

Lemma eqb_zero_whole (k : Z) :
  (0 < k < 2 ^ 53)%Z -> (JS.of_Z k ==? 0) = false.
Proof.
  intros Hk. destruct k as [ | p | p ]; try lia.
  rewrite of_Z_nf by lia.
  destruct (nf_finite false p (digits_bound p ltac:(lia))) as (m & e & -> & _).
  reflexivity.
Qed.

(** X11.  After Calculate on a valid request, and after the Invert that
    may follow, when the fits on display are the whole numbers [n] and
    [m], both positive with [n * m] below [2 ^ 53], the total on display
    is exactly [n * m], the sketch is rendered, its effect finishes and
    it outlines as many pieces as the total says. *)
Theorem sketch_matches_total
  (s : App.State) (d : DL.t) (n m : Z) (fuel : nat) :
  valid (App.rawLayoutOf (App.inputs s)) ->
  App.displayLayout (App.handleCalculate s) = Some d
  \/ App.displayLayout (App.handleInvert (App.handleCalculate s)) = Some d ->
  DL.fitW d = Some (JS.of_Z n) -> DL.fitH d = Some (JS.of_Z m) ->
  (0 < n)%Z -> (0 < m)%Z -> (n * m < 2 ^ 53)%Z ->
  (Z.to_nat n <= fuel)%nat -> (Z.to_nat m <= fuel)%nat ->
  DL.total d = Some (JS.of_Z (n * m))
  /\ total_positive d = true
  /\ exists ops,
       Canvas.effect fuel d = Some ops
       /\ length (filter is_outline ops) = Z.to_nat (n * m).
Proof.
  intros Hv Hd Hw Hh Hn Hm Hnm Hfn Hfm.
  assert (Hl : exists l,
             (layoutA (App.rawLayoutOf (App.inputs s)) = Some l
              \/ layoutB (App.rawLayoutOf (App.inputs s)) = Some l)
             /\ d = spread_layout (Some l) (App.rawLayoutOf (App.inputs s))).
  { unfold valid, App.handleInvert, App.handleCalculate in *.
    destruct (rawLayout_shaped (App.inputs s))
      as [(He & _) | (He & la & lb & Ha & Hb & _ & _ & _ & _ & Hk)];
      [ rewrite Hv in He; discriminate | ].
    cbv zeta in Hd. rewrite He, Hk in Hd. cbn [truthy_error] in Hd.
    cbn [App.displayLayout App.inputs App.currentLayoutKey App.isDirty
         App.is_optimal] in Hd.
    rewrite Hk in Hd.
    destruct (total la >=? total lb); cbn [is_A layout_at] in Hd;
      rewrite ?Ha, ?Hb in Hd; destruct Hd as [[= <-] | [= <-]];
      eexists; (split; [ | reflexivity ]); auto. }
  destruct Hl as (l & Hl & ->).
  cbn [spread_layout DL.fitW DL.fitH option_map] in Hw, Hh.
  injection Hw as Hw. injection Hh as Hh.
  assert (Hn' : (0 <= n < 2 ^ 53)%Z) by nia.
  assert (Hm' : (0 <= m < 2 ^ 53)%Z) by nia.
  assert (Ht : total l = JS.of_Z (n * m)).
  { rewrite (rawLayout_totals _ _ Hl), Hw, Hh. apply mul_whole; lia. }
  assert (Hdr : drawable
                  (spread_layout (Some l) (App.rawLayoutOf (App.inputs s)))
                  n m).
  { unfold drawable. cbn [spread_layout DL.fitW DL.fitH DL.total DL.error
                           option_map Canvas.is_zero].
    rewrite Hw, Hh, Ht, Hv. repeat split; try lia.
    apply eqb_zero_whole. nia. }
  split; [ | split ].
  - cbn [spread_layout DL.total option_map]. rewrite Ht. reflexivity.
  - unfold total_positive. cbn [spread_layout DL.total option_map].
    rewrite Ht. change JS.zero with (JS.of_Z 0).
    rewrite ltb_of_Z by nia. apply Z.ltb_lt. nia.
  - destruct (effect_outlines _ n m fuel Hdr Hfn Hfm) as (ops & Hops & _ & Hlen).
    exists ops. split; assumption.
Qed.

Lemma sketch_matches_total_witness :
  let s := App.initial in
  let rl := App.rawLayoutOf (App.inputs s) in
  let d := spread_layout (layoutB rl) rl in
  DL.total d = Some (JS.of_Z (1 * 2))
  /\ total_positive d = true
  /\ exists ops,
       Canvas.effect 2 d = Some ops
       /\ length (filter is_outline ops) = Z.to_nat (1 * 2).
Proof.
  cbv zeta. apply (sketch_matches_total App.initial _ 1 2 2).
  - reflexivity.
  - left. reflexivity.
  - reflexivity.
  - reflexivity.
  - lia.
  - lia.
  - lia.
  - cbn. lia.
  - cbn. lia.
Defined.

Section Divergence.

Local Open Scope Z_scope.

Variables startX startY cutDrawW cutDrawH gutterDraw fitW fitH : JS.number.

Lemma for_j_diverges :
  JS.ltb (JS.of_Z (2 ^ 53)) fitH = true ->
  forall fuel k i ctx,
    0 <= k <= 2 ^ 53 ->
    Canvas.for_j startX startY cutDrawW cutDrawH gutterDraw fitW fitH
                 fuel i (JS.of_Z k) ctx = None.
Proof.
  intros Hh. induction fuel as [ | fuel IH ]; intros k i ctx Hk;
    cbn [Canvas.for_j]; rewrite (below_bound fitH k Hh Hk);
    [ reflexivity | ].
  destruct (counter_step k Hk) as (k' & Hk' & ->). apply IH. exact Hk'.
Qed.

Lemma for_i_diverges budget :
  JS.ltb (JS.of_Z (2 ^ 53)) fitW = true ->
  forall fuel k ctx,
    0 <= k <= 2 ^ 53 ->
    Canvas.for_i startX startY cutDrawW cutDrawH gutterDraw fitW fitH
                 budget fuel (JS.of_Z k) ctx = None.
Proof.
  intros Hw. induction fuel as [ | fuel IH ]; intros k ctx Hk;
    cbn [Canvas.for_i]; rewrite (below_bound fitW k Hw Hk);
    [ reflexivity | ].
  destruct (Canvas.for_j _ _ _ _ _ _ _ _ _ _ _); [ | reflexivity ].
  destruct (counter_step k Hk) as (k' & Hk' & ->). apply IH. exact Hk'.
Qed.

Lemma for_i_diverges_inside budget fuel ctx :
  JS.ltb JS.zero fitW = true ->
  JS.ltb (JS.of_Z (2 ^ 53)) fitH = true ->
  Canvas.for_i startX startY cutDrawW cutDrawH gutterDraw fitW fitH
               budget fuel JS.zero ctx = None.
Proof.
  intros Hw Hh. destruct fuel as [ | fuel ]; cbn [Canvas.for_i]; rewrite Hw;
    [ reflexivity | ].
  change JS.zero with (JS.of_Z 0) at 2.
  rewrite for_j_diverges by (assumption || lia). reflexivity.
Qed.

End Divergence.

(** X12.  When a fit count on display exceeds [2 ^ 53] (the column count,
    or the row count with at least one column), and the total is not 0
    and there is no error, the effect of [LayoutCanvas] never finishes:
    its counter stops growing at [2 ^ 53], where adding 1 rounds back, so
    no amount of passes ends the loop. *)
Theorem sketch_never_finishes (layout : DL.t) (w h : JS.number) :
  DL.fitW layout = Some w -> DL.fitH layout = Some h ->
  Canvas.is_zero (DL.total layout) = false ->
  truthy_error (DL.error layout) = false ->
  (JS.of_Z (2 ^ 53) <? w) = true
  \/ ((0 <? w) = true /\ (JS.of_Z (2 ^ 53) <? h) = true) ->
  forall fuel, Canvas.effect fuel layout = None.
Proof.
  intros Hw Hh Hz He Hbig fuel.
  unfold Canvas.effect. rewrite Hz, He, Hw, Hh. cbn [orb Canvas.num].
  cbv zeta. destruct Hbig as [Hb | [Hp Hb]].
  - change JS.zero with (JS.of_Z 0) at 1.
    rewrite for_i_diverges by (assumption || lia). reflexivity.
  - rewrite for_i_diverges_inside by assumption. reflexivity.
Qed.

(** A sheet 1e17 wide holds more than [2 ^ 53] columns of a piece 1
    wide. *)
Lemma sketch_never_finishes_witness :
  let rl := rawLayout "1" "1" "1e17" "10" "0" "0" "0" "0" in
  (JS.of_Z (2 ^ 53) <? JS.parseFloat "1e17") = true
  /\ Canvas.effect 1000 (spread_layout (layoutA rl) rl) = None.
Proof.
  cbv zeta. split; [ vm_compute; reflexivity | ].
  apply (sketch_never_finishes _ (JS.parseFloat "1e17") (JS.of_Z 10)).
  - vm_compute. reflexivity.
  - vm_compute. reflexivity.
  - vm_compute. reflexivity.
  - vm_compute. reflexivity.
  - left. vm_compute. reflexivity.
Defined.
